(** * flake8-simplify: the SIM101 and SIM201 checks

    A shallow embedding of [flake8_simplify.py]: the two pattern predicates
    [_get_duplicated_isinstance_calls] and [_get_not_equal_calls], the
    [Visitor] built on [ast.NodeVisitor], and the properties of the checks. *)

From Stdlib Require Import List String Ascii ZArith Bool Arith Lia Sorted.
From Stdlib Require Import Permutation.
Import ListNotations.
Local Open Scope string_scope.
Local Open Scope list_scope.

(** ** Exceptions

    Python operations that may raise are modelled with an explicit result
    type; the exceptions are the ones the operations used by the module can
    raise. *)

Inductive exn : Type :=
| IndexError
| KeyError
| ValueError.

Inductive result (A : Type) : Type :=
| Ok (a : A)
| Raise (e : exn).

Arguments Ok {A} a.
Arguments Raise {A} e.

Definition bind {A B : Type} (m : result A) (k : A -> result B) : result B :=
  match m with
  | Ok a => k a
  | Raise e => Raise e
  end.

Notation "x <- m ;; k" := (bind m (fun x => k))
  (at level 61, m at next level, right associativity).

(** ** Syntax trees

    The node kinds the module inspects are constructors of their own, with
    the fields in the order of the class's [_fields]; every other kind of
    node (statements, [Module], constants, [keyword], ...) is a [Generic]
    node carrying its class name and its child nodes in field order.
    Operator nodes ([ast.Or()], [ast.Not()], [ast.Eq()], ...) have no fields. *)

Inductive boolop : Type := And | Or.

Inductive unaryop : Type := Invert | Not | UAdd | USub.

Inductive cmpop : Type :=
| Eq | NotEq | Lt | LtE | Gt | GtE | Is | IsNot | In_ | NotIn.

#[local] Set Warnings "-register-all".

Inductive node : Type :=
| BoolOp (lineno col_offset : Z) (op : boolop) (values : list node)
| UnaryOp (lineno col_offset : Z) (op : unaryop) (operand : node)
| Compare (lineno col_offset : Z) (left : node) (ops : list cmpop)
          (comparators : list node)
| Call (lineno col_offset : Z) (func : node) (args : list node)
       (keywords : list node)
| Name (lineno col_offset : Z) (id : string)
| Attribute (lineno col_offset : Z) (value : node) (attr : string)
| Generic (kind : string) (children : list node).

(** A finding: [(line, column, message)]. *)
Definition Finding : Type := (Z * Z * string)%type.

(** [type(self)] in [Plugin.run]. *)
Inductive plugin_type : Type := Plugin.

(** ** Strings: [str.strip] and [str.format] *)

(** Whitespace as [str.isspace] has it on the code points below 128. *)
Definition isspace (c : ascii) : bool :=
  let n := nat_of_ascii c in
  (((9 <=? n) && (n <=? 13)) || ((28 <=? n) && (n <=? 32)))%nat.

Fixpoint lstrip (s : string) : string :=
  match s with
  | EmptyString => EmptyString
  | String c rest => if isspace c then lstrip rest else s
  end.

Fixpoint rstrip (s : string) : string :=
  match s with
  | EmptyString => EmptyString
  | String c rest =>
      match rstrip rest with
      | EmptyString => if isspace c then EmptyString else String c EmptyString
      | kept => String c kept
      end
  end.

Definition strip (s : string) : string := rstrip (lstrip s).

(** Keyword arguments of a call, in the order given. *)
Definition kwargs : Type := list (string * string).

Fixpoint kwargs_get (name : string) (kw : kwargs) : option string :=
  match kw with
  | [] => None
  | (k, v) :: rest => if String.eqb k name then Some v else kwargs_get name rest
  end.

(** [str.format] with keyword arguments, for templates whose replacement
    fields are plain keyword names: [{{] and [}}] are literal braces,
    [{name}] is replaced by the keyword argument [name] (the inserted text
    is not scanned again), a missing keyword raises [KeyError] and an
    unbalanced brace [ValueError].  [field] is the name being read when the
    scan is inside braces. *)
Fixpoint format_from (template : string) (field : option string) (kw : kwargs)
  : result string :=
  match field with
  | None =>
      match template with
      | EmptyString => Ok EmptyString
      | String "{" (String "{" rest) =>
          out <- format_from rest None kw ;; Ok (String "{" out)
      | String "{" rest => format_from rest (Some EmptyString) kw
      | String "}" (String "}" rest) =>
          out <- format_from rest None kw ;; Ok (String "}" out)
      | String "}" _ => Raise ValueError
      | String c rest => out <- format_from rest None kw ;; Ok (String c out)
      end
  | Some name =>
      match template with
      | EmptyString => Raise ValueError
      | String "}" rest =>
          match kwargs_get name kw with
          | Some v => out <- format_from rest None kw ;; Ok (v ++ out)%string
          | None => Raise KeyError
          end
      | String c rest =>
          format_from rest (Some (name ++ String c EmptyString)%string) kw
      end
  end.

Definition format (template : string) (kw : kwargs) : result string :=
  format_from template None kw.

(** ** Message templates *)

Definition SIM101 : string :=
  ("SIM101 Multiple isinstance-calls which can be merged into a single "
   ++ "call for variable '{var}'")%string.

Definition SIM201 : string :=
  "SIM201 Used 'not {left} == {right}' instead of '{left} != {right}'".

(** ** Sequences *)

(** [l[i]] for a non-negative index: [IndexError] out of range. *)
Definition getitem {A : Type} (l : list A) (i : nat) : result A :=
  match nth_error l i with
  | Some x => Ok x
  | None => Raise IndexError
  end.

(** A [for] loop over [l] whose body updates the loop state and may raise. *)
Fixpoint for_each {A S : Type} (body : S -> A -> result S) (l : list A)
  (s : S) : result S :=
  match l with
  | [] => Ok s
  | x :: rest => s' <- body s x ;; for_each body rest s'
  end.

(** ** The call-argument counter

    [defaultdict(int)], keys in insertion order: [counter[key] += 1] updates
    the entry of a key already there in place and appends a new key with
    count 1 at the end. *)

Definition Counter : Type := list (string * nat).

Fixpoint counter_incr (key : string) (counter : Counter) : Counter :=
  match counter with
  | [] => [(key, 1)]
  | (k, count) :: rest =>
      if String.eqb k key then (k, S count) :: rest
      else (k, count) :: counter_incr key rest
  end.

(** A small renderer for the examples: a name renders as its identifier, an
    attribute access as [value.attr], each followed by a newline, as
    [astor.to_source] ends its output. *)
Fixpoint expr_text (e : node) : string :=
  match e with
  | Name _ _ id => id
  | Attribute _ _ value attr => (expr_text value ++ "." ++ attr)%string
  | _ => "<expr>"
  end.

Definition names_to_source (e : node) : string :=
  (expr_text e ++ String (ascii_of_nat 10) EmptyString)%string.

(** Sample trees.  [isinstance_call c var type] is [isinstance(var, type)]
    at column [c] of line 1. *)
Definition isinstance_call (c : Z) (var type : string) : node :=
  Call 1 c (Name 1 c "isinstance")
       [Name 1 (c + 11) var; Name 1 (c + 14) type] [].

(** [(isinstance(a, int) or isinstance(a, float)) or isinstance(b, int)] *)
Definition nested_or : node :=
  BoolOp 1 0 Or
    [BoolOp 1 1 Or
       [isinstance_call 1 "a" "int"; isinstance_call 23 "a" "float"];
     isinstance_call 50 "b" "int"].

(** [a == b], the operand of [not a == b] *)
Definition a_eq_b : node := Compare 1 4 (Name 1 4 "a") [Eq] [Name 1 9 "b"].

(** A module with the statements [not a == b] and the nested or-chain. *)
Definition sample_module : node :=
  Generic "Module"
    [Generic "Expr" [UnaryOp 1 0 Not a_eq_b]; Generic "Expr" [nested_or]].

(** A module with the statement [isinstance(a, int) or isinstance(b, int)]. *)
Definition distinct_or_module : node :=
  Generic "Module"
    [Generic "Expr"
       [BoolOp 1 0 Or
          [isinstance_call 0 "a" "int"; isinstance_call 22 "b" "int"]]].

(** ** The checks with a renderer that may raise

    [astor.to_source] does not return for every tree a parser builds: it
    raises, for one, a [ValueError] on an integer literal with more digits
    than the interpreter converts to text.  Module [Raising] has the checks
    with the renderer as a function that returns a text or raises; the
    exception passes through the predicates, the visitor and the run as it
    does in the source, which catches nothing. *)

Module Raising.

Section Renderer.

(** [astor.to_source]: a text, or an exception. *)
Variable to_source : node -> result string.

(** [astor.to_source(e).strip()] *)
Definition render (e : node) : result string :=
  source <- to_source e ;; Ok (strip source).

(** The body of the loop over [node.values]. *)
Definition count_isinstance_call (counter : Counter) (call : node)
  : result Counter :=
  match call with
  | Call _ _ func args _ =>
      if negb (Nat.eqb (List.length args) 2) then Ok counter
      else
        function_name <- render func ;;
        if negb (String.eqb function_name "isinstance") then Ok counter
        else
          arg0 <- getitem args 0 ;;
          isinstance_arg0_name <- render arg0 ;;
          Ok (counter_incr isinstance_arg0_name counter)
  | _ => Ok counter
  end.

Definition _get_duplicated_isinstance_call_by_node (values : list node)
  : result (list string) :=
  counter <- for_each count_isinstance_call values [] ;;
  Ok (map fst (filter (fun '(_, count) => Nat.ltb 1 count) counter)).

Definition _get_duplicated_isinstance_calls
  (lineno col_offset : Z) (op : boolop) (values : list node)
  : result (list Finding) :=
  let errors : list Finding := [] in
  match op with
  | Or =>
      vars <- _get_duplicated_isinstance_call_by_node values ;;
      for_each
        (fun errors var =>
           msg <- format SIM101 [("var", var)] ;;
           Ok (errors ++ [(lineno, col_offset, msg)]))
        vars errors
  | And => Ok errors
  end.

Definition _get_not_equal_calls
  (lineno col_offset : Z) (op : unaryop) (operand : node)
  : result (list Finding) :=
  let errors : list Finding := [] in
  match op with
  | Not =>
      match operand with
      | Compare _ _ cmp_left ops comparators =>
          if negb (Nat.eqb (List.length ops) 1) then Ok errors
          else
            op0 <- getitem ops 0 ;;
            match op0 with
            | Eq =>
                left <- render cmp_left ;;
                comparator0 <- getitem comparators 0 ;;
                right <- render comparator0 ;;
                msg <- format SIM201 [("left", left); ("right", right)] ;;
                Ok (errors ++ [(lineno, col_offset, msg)])
            | _ => Ok errors
            end
      | _ => Ok errors
      end
  | _ => Ok errors
  end.

Definition visit_each
  (visit : node -> list Finding -> result (list Finding))
  : list node -> list Finding -> result (list Finding) :=
  fix go (nodes : list node) (errors : list Finding) :=
    match nodes with
    | [] => Ok errors
    | n :: rest => errors' <- visit n errors ;; go rest errors'
    end.

Fixpoint visit (n : node) (errors : list Finding) : result (list Finding) :=
  match n with
  | BoolOp lineno col_offset op values =>
      found <- _get_duplicated_isinstance_calls lineno col_offset op values ;;
      visit_each visit values (errors ++ found)
  | UnaryOp lineno col_offset op operand =>
      found <- _get_not_equal_calls lineno col_offset op operand ;;
      visit operand (errors ++ found)
  | Compare _ _ cmp_left _ comparators =>
      errors <- visit cmp_left errors ;;
      visit_each visit comparators errors
  | Call _ _ func args keywords =>
      errors <- visit func errors ;;
      errors <- visit_each visit args errors ;;
      visit_each visit keywords errors
  | Name _ _ _ => Ok errors
  | Attribute _ _ value _ => visit value errors
  | Generic _ children => visit_each visit children errors
  end.

Definition run (tree : node) : result (list (Z * Z * string * plugin_type)) :=
  errors <- visit tree [] ;;
  Ok (map (fun '(line, col, msg) => (line, col, msg, Plugin)) errors).

(** The predicate the visitor's dispatch runs at a node. *)
Definition check_node (n : node) : result (list Finding) :=
  match n with
  | BoolOp lineno col_offset op values =>
      _get_duplicated_isinstance_calls lineno col_offset op values
  | UnaryOp lineno col_offset op operand =>
      _get_not_equal_calls lineno col_offset op operand
  | _ => Ok []
  end.

End Renderer.

End Raising.

(** The renderer returns for the node [m]. *)
Definition renders (to_source : node -> result string) (m : node) : Prop :=
  exists source, to_source m = Ok source.

(** The text of a node the renderer returns for. *)
Definition rendered (to_source : node -> result string) (e : node) : string :=
  match to_source e with
  | Ok source => source
  | Raise _ => EmptyString
  end.

(** The outcomes of a row of checks taken together: the exception of the
    first check that raised, the findings of all of them one after the
    other when none did. *)
Fixpoint collect (outcomes : list (result (list Finding)))
  : result (list Finding) :=
  match outcomes with
  | [] => Ok []
  | outcome :: rest =>
      found <- outcome ;; more <- collect rest ;; Ok (found ++ more)
  end.

(** An integer literal with more digits than the interpreter converts. *)
Definition huge_literal : node := Generic "Constant(huge int)" [].

(** A renderer that raises [ValueError] on [huge_literal] and renders every
    other node as [names_to_source] does. *)
Definition digit_limit_to_source (e : node) : result string :=
  match e with
  | Generic kind [] =>
      if String.eqb kind "Constant(huge int)" then Raise ValueError
      else Ok (names_to_source e)
  | _ => Ok (names_to_source e)
  end.

(** [not <huge literal> == a] *)
Definition not_huge_eq_a : node :=
  UnaryOp 1 0 Not (Compare 1 4 huge_literal [Eq] [Name 1 9 "a"]).


Section Checks.

(** [astor.to_source], the source renderer: any total function. *)
Variable to_source : node -> string.

(** [astor.to_source(e).strip()] *)
Definition render (e : node) : string := strip (to_source e).

(** *** SIM101 *)

(** The body of the loop over [node.values]. *)
Definition count_isinstance_call (counter : Counter) (call : node)
  : result Counter :=
  match call with
  | Call _ _ func args _ =>
      if negb (Nat.eqb (List.length args) 2) then Ok counter
      else
        let function_name := render func in
        if negb (String.eqb function_name "isinstance") then Ok counter
        else
          arg0 <- getitem args 0 ;;
          let isinstance_arg0_name := render arg0 in
          Ok (counter_incr isinstance_arg0_name counter)
  | _ => Ok counter
  end.

Definition _get_duplicated_isinstance_call_by_node (values : list node)
  : result (list string) :=
  counter <- for_each count_isinstance_call values [] ;;
  Ok (map fst (filter (fun '(_, count) => Nat.ltb 1 count) counter)).

Definition _get_duplicated_isinstance_calls
  (lineno col_offset : Z) (op : boolop) (values : list node)
  : result (list Finding) :=
  let errors : list Finding := [] in
  match op with
  | Or =>
      vars <- _get_duplicated_isinstance_call_by_node values ;;
      for_each
        (fun errors var =>
           msg <- format SIM101 [("var", var)] ;;
           Ok (errors ++ [(lineno, col_offset, msg)]))
        vars errors
  | And => Ok errors
  end.

(** *** SIM201 *)

Definition _get_not_equal_calls
  (lineno col_offset : Z) (op : unaryop) (operand : node)
  : result (list Finding) :=
  let errors : list Finding := [] in
  match op with
  | Not =>
      match operand with
      | Compare _ _ cmp_left ops comparators =>
          if negb (Nat.eqb (List.length ops) 1) then Ok errors
          else
            op0 <- getitem ops 0 ;;
            match op0 with
            | Eq =>
                let left := render cmp_left in
                comparator0 <- getitem comparators 0 ;;
                let right := render comparator0 in
                msg <- format SIM201 [("left", left); ("right", right)] ;;
                Ok (errors ++ [(lineno, col_offset, msg)])
            | _ => Ok errors
            end
      | _ => Ok errors
      end
  | _ => Ok errors
  end.

(** *** The visitor

    [Visitor.errors] is passed explicitly.  [visit] is [ast.NodeVisitor]'s:
    it dispatches on the node's class.  [visit_BoolOp] and [visit_UnaryOp]
    extend [errors] with what the predicate returns and then call
    [generic_visit]; every other class goes to [generic_visit] directly,
    which visits the child nodes in field order.  Visiting an operator node
    changes nothing.  An exception raised by a predicate ends the visit. *)

Definition visit_each
  (visit : node -> list Finding -> result (list Finding))
  : list node -> list Finding -> result (list Finding) :=
  fix go (nodes : list node) (errors : list Finding) :=
    match nodes with
    | [] => Ok errors
    | n :: rest => errors' <- visit n errors ;; go rest errors'
    end.

Fixpoint visit (n : node) (errors : list Finding) : result (list Finding) :=
  match n with
  | BoolOp lineno col_offset op values =>
      found <- _get_duplicated_isinstance_calls lineno col_offset op values ;;
      visit_each visit values (errors ++ found)
  | UnaryOp lineno col_offset op operand =>
      found <- _get_not_equal_calls lineno col_offset op operand ;;
      visit operand (errors ++ found)
  | Compare _ _ cmp_left _ comparators =>
      errors <- visit cmp_left errors ;;
      visit_each visit comparators errors
  | Call _ _ func args keywords =>
      errors <- visit func errors ;;
      errors <- visit_each visit args errors ;;
      visit_each visit keywords errors
  | Name _ _ _ => Ok errors
  | Attribute _ _ value _ => visit value errors
  | Generic _ children => visit_each visit children errors
  end.

(** [Plugin.run]: a fresh [Visitor] starts with no errors, visits the tree,
    and every error is yielded with the plugin's type. *)
Definition run (tree : node) : result (list (Z * Z * string * plugin_type)) :=
  errors <- visit tree [] ;;
  Ok (map (fun '(line, col, msg) => (line, col, msg, Plugin)) errors).

(** *** What the properties are stated with *)

(** The child nodes [generic_visit] visits, in field order. *)
Definition child_nodes (n : node) : list node :=
  match n with
  | BoolOp _ _ _ values => values
  | UnaryOp _ _ _ operand => [operand]
  | Compare _ _ cmp_left _ comparators => cmp_left :: comparators
  | Call _ _ func args keywords => func :: args ++ keywords
  | Name _ _ _ => []
  | Attribute _ _ value _ => [value]
  | Generic _ children => children
  end.

(** The nodes of a tree in depth-first pre-order: a node, then the
    subtrees of its children from left to right. *)
Fixpoint preorder (n : node) : list node :=
  n ::
  match n with
  | BoolOp _ _ _ values => flat_map preorder values
  | UnaryOp _ _ _ operand => preorder operand
  | Compare _ _ cmp_left _ comparators =>
      preorder cmp_left ++ flat_map preorder comparators
  | Call _ _ func args keywords =>
      preorder func ++ flat_map preorder args ++ flat_map preorder keywords
  | Name _ _ _ => []
  | Attribute _ _ value _ => preorder value
  | Generic _ children => flat_map preorder children
  end.

(** A well-formed tree: every comparison has as many comparators as
    operators, which is what the parser builds. *)
Fixpoint well_formed (n : node) : bool :=
  match n with
  | BoolOp _ _ _ values => forallb well_formed values
  | UnaryOp _ _ _ operand => well_formed operand
  | Compare _ _ cmp_left ops comparators =>
      Nat.eqb (List.length ops) (List.length comparators)
      && well_formed cmp_left && forallb well_formed comparators
  | Call _ _ func args keywords =>
      well_formed func && forallb well_formed args
      && forallb well_formed keywords
  | Name _ _ _ => true
  | Attribute _ _ value _ => well_formed value
  | Generic _ children => forallb well_formed children
  end.

(** The predicate the visitor's dispatch runs at a node. *)
Definition check_node (n : node) : result (list Finding) :=
  match n with
  | BoolOp lineno col_offset op values =>
      _get_duplicated_isinstance_calls lineno col_offset op values
  | UnaryOp lineno col_offset op operand =>
      _get_not_equal_calls lineno col_offset op operand
  | _ => Ok []
  end.

(** The findings of [check_node], none where it raises. *)
Definition node_findings (n : node) : list Finding :=
  match check_node n with
  | Ok found => found
  | Raise _ => []
  end.

(** The key an operand of an or-node is counted under, following the
    specification: the rendered first argument of a call with exactly two
    [args] whose rendered callee is [isinstance]. *)
Definition isinstance_key (operand : node) : option string :=
  match operand with
  | Call _ _ func [arg0; _] _ =>
      if String.eqb (render func) "isinstance" then Some (render arg0)
      else None
  | _ => None
  end.

Definition isinstance_keys (values : list node) : list string :=
  flat_map
    (fun operand =>
       match isinstance_key operand with
       | Some key => [key]
       | None => []
       end)
    values.

(** How many direct operands are isinstance checks of [var]. *)
Definition occurrences (var : string) (values : list node) : nat :=
  count_occ string_dec (isinstance_keys values) var.

(** The position of the first occurrence of [key] in [keys]
    ([length keys] when there is none). *)
Fixpoint first_index (key : string) (keys : list string) : nat :=
  match keys with
  | [] => 0
  | k :: rest => if String.eqb k key then 0 else S (first_index key rest)
  end.

(** The position, among the operands [values], of the first operand counted
    under [var] ([length values] when there is none). *)
Fixpoint first_operand (var : string) (values : list node) : nat :=
  match values with
  | [] => 0
  | operand :: rest =>
      match isinstance_key operand with
      | Some key =>
          if String.eqb key var then 0 else S (first_operand var rest)
      | None => S (first_operand var rest)
      end
  end.

(** [counter[key]] read without inserting: 0 for a missing key. *)
Fixpoint counter_get (key : string) (counter : Counter) : nat :=
  match counter with
  | [] => 0
  | (k, count) :: rest =>
      if String.eqb k key then count else counter_get key rest
  end.

(** The SIM101 message for [var], written out. *)
Definition SIM101_message (var : string) : string :=
  ("SIM101 Multiple isinstance-calls which can be merged into a single call for variable '"
   ++ var ++ "'")%string.

(** The SIM201 message for [left] and [right], written out. *)
Definition SIM201_message (left right : string) : string :=
  ("SIM201 Used 'not " ++ left ++ " == " ++ right ++ "' instead of '"
   ++ left ++ " != " ++ right ++ "'")%string.

Definition Finding_eq_dec (f g : Finding) : {f = g} + {f <> g}.
Proof. repeat decide equality. Defined.

(** The counter after [keys] were counted one after the other. *)
Definition counter_of (keys : list string) : Counter :=
  fold_left (fun counter key => counter_incr key counter) keys [].

(** The variables [_get_duplicated_isinstance_call_by_node] returns. *)
Definition duplicated_vars (values : list node) : list string :=
  filter (fun key => Nat.ltb 1 (occurrences key values))
         (map fst (counter_of (isinstance_keys values))).

(** A [not] over a comparison with the one operator [==] and no
    comparator: the shape at which [_get_not_equal_calls] reads
    [comparators[0]] past the end of the list. *)
Definition lacks_comparator (n : node) : bool :=
  match n with
  | UnaryOp _ _ Not (Compare _ _ _ [Eq] []) => true
  | _ => false
  end.

(** *** Induction on trees *)

Section NodeInduction.

Variable P : node -> Prop.
Hypothesis P_BoolOp : forall l c op values,
  Forall P values -> P (BoolOp l c op values).
Hypothesis P_UnaryOp : forall l c op operand,
  P operand -> P (UnaryOp l c op operand).
Hypothesis P_Compare : forall l c cmp_left ops comparators,
  P cmp_left -> Forall P comparators ->
  P (Compare l c cmp_left ops comparators).
Hypothesis P_Call : forall l c func args keywords,
  P func -> Forall P args -> Forall P keywords ->
  P (Call l c func args keywords).
Hypothesis P_Name : forall l c id, P (Name l c id).
Hypothesis P_Attribute : forall l c value attr,
  P value -> P (Attribute l c value attr).
Hypothesis P_Generic : forall kind children,
  Forall P children -> P (Generic kind children).

Fixpoint node_nested_ind (n : node) : P n :=
  let all :=
    fix all (nodes : list node) : Forall P nodes :=
      match nodes with
      | [] => Forall_nil P
      | m :: rest => Forall_cons m (node_nested_ind m) (all rest)
      end in
  match n with
  | BoolOp l c op values => P_BoolOp l c op values (all values)
  | UnaryOp l c op operand => P_UnaryOp l c op operand (node_nested_ind operand)
  | Compare l c cmp_left ops comparators =>
      P_Compare l c cmp_left ops comparators
        (node_nested_ind cmp_left) (all comparators)
  | Call l c func args keywords =>
      P_Call l c func args keywords
        (node_nested_ind func) (all args) (all keywords)
  | Name l c id => P_Name l c id
  | Attribute l c value attr =>
      P_Attribute l c value attr (node_nested_ind value)
  | Generic kind children => P_Generic kind children (all children)
  end.

End NodeInduction.

Ltac preorder_done :=
  cbn [preorder flat_map];
  rewrite ?flat_map_app, <- ?app_assoc; reflexivity.

(** ** Lemmas *)

Lemma format_SIM101 var :
  format SIM101 [("var", var)] = Ok (SIM101_message var).
Proof. reflexivity. Qed.

Lemma format_SIM201 left right :
  format SIM201 [("left", left); ("right", right)]
  = Ok (SIM201_message left right).
Proof. reflexivity. Qed.

(** *** The counter *)

Lemma counter_of_snoc keys key :
  counter_of (keys ++ [key]) = counter_incr key (counter_of keys).
Proof. unfold counter_of. now rewrite fold_left_app. Qed.

Lemma counter_incr_keys_old key counter :
  In key (map fst counter) ->
  map fst (counter_incr key counter) = map fst counter.
Proof.
  induction counter as [|[k n] rest IH]; simpl; intros Hin.
  - contradiction.
  - destruct (String.eqb k key) eqn:E; simpl; [reflexivity|].
    f_equal. apply IH. destruct Hin as [->|Hin]; [|assumption].
    now rewrite String.eqb_refl in E.
Qed.

Lemma counter_incr_keys_new key counter :
  ~ In key (map fst counter) ->
  map fst (counter_incr key counter) = map fst counter ++ [key].
Proof.
  induction counter as [|[k n] rest IH]; simpl; intros Hnin.
  - reflexivity.
  - destruct (String.eqb k key) eqn:E; simpl.
    + apply String.eqb_eq in E. exfalso. apply Hnin. now left.
    + f_equal. apply IH. intros Hin. apply Hnin. now right.
Qed.

Lemma counter_get_incr key key' counter :
  counter_get key' (counter_incr key counter)
  = counter_get key' counter + (if String.eqb key key' then 1 else 0).
Proof.
  induction counter as [|[k n] rest IH]; simpl.
  - reflexivity.
  - destruct (String.eqb k key) eqn:E; simpl.
    + apply String.eqb_eq in E. subst k.
      destruct (String.eqb key key'); lia.
    + destruct (String.eqb k key') eqn:E'; [|exact IH].
      apply String.eqb_eq in E'. subst k. rewrite String.eqb_sym, E. lia.
Qed.

Lemma counter_get_counter_of key keys :
  counter_get key (counter_of keys) = count_occ string_dec keys key.
Proof.
  induction keys as [|k keys IH] using rev_ind.
  - reflexivity.
  - rewrite counter_of_snoc, counter_get_incr, count_occ_app, IH. simpl.
    destruct (string_dec k key) as [->|Hne].
    + now rewrite String.eqb_refl.
    + apply String.eqb_neq in Hne. now rewrite Hne.
Qed.

Lemma counter_of_keys_In keys :
  forall key, In key (map fst (counter_of keys)) <-> In key keys.
Proof.
  induction keys as [|k keys IH] using rev_ind; intros key.
  - simpl. tauto.
  - rewrite counter_of_snoc, in_app_iff. simpl.
    destruct (in_dec string_dec k (map fst (counter_of keys))) as [Hin|Hnin].
    + rewrite (counter_incr_keys_old _ _ Hin), IH.
      apply IH in Hin. intuition (subst; auto).
    + rewrite (counter_incr_keys_new _ _ Hnin), in_app_iff, IH. simpl. tauto.
Qed.

Lemma counter_of_keys_NoDup keys : NoDup (map fst (counter_of keys)).
Proof.
  induction keys as [|k keys IH] using rev_ind.
  - constructor.
  - rewrite counter_of_snoc.
    destruct (in_dec string_dec k (map fst (counter_of keys))) as [Hin|Hnin].
    + now rewrite (counter_incr_keys_old _ _ Hin).
    + rewrite (counter_incr_keys_new _ _ Hnin).
      apply NoDup_app; repeat split; try assumption.
      * repeat constructor. simpl. tauto.
      * intros x Hx [<-|[]]. contradiction.
Qed.

(** *** First occurrences *)

Lemma first_index_In_lt key keys :
  In key keys -> first_index key keys < List.length keys.
Proof.
  induction keys as [|k keys IH]; simpl; intros Hin; [contradiction|].
  destruct (String.eqb k key) eqn:E; [lia|].
  apply String.eqb_neq in E. destruct Hin as [->|Hin]; [congruence|].
  specialize (IH Hin). lia.
Qed.

Lemma first_index_app_In key keys more :
  In key keys -> first_index key (keys ++ more) = first_index key keys.
Proof.
  induction keys as [|k keys IH]; simpl; intros Hin; [contradiction|].
  destruct (String.eqb k key) eqn:E; [reflexivity|].
  apply String.eqb_neq in E. destruct Hin as [->|Hin]; [congruence|].
  now rewrite IH.
Qed.

Lemma first_index_app_notin key keys more :
  ~ In key keys ->
  first_index key (keys ++ more) = List.length keys + first_index key more.
Proof.
  induction keys as [|k keys IH]; simpl; intros Hnin; [reflexivity|].
  destruct (String.eqb k key) eqn:E.
  - apply String.eqb_eq in E. exfalso. apply Hnin. now left.
  - rewrite IH; [reflexivity|]. intros Hin. apply Hnin. now right.
Qed.

Lemma StronglySorted_weaken {A} (R R' : A -> A -> Prop) l :
  (forall v w, In v l -> In w l -> R v w -> R' v w) ->
  StronglySorted R l -> StronglySorted R' l.
Proof.
  intros Himp Hs. induction Hs as [|a l Hs IH Hall]; constructor.
  - apply IH. intros v w Hv Hw. apply Himp; now right.
  - rewrite Forall_forall in *. intros w Hw.
    apply Himp; [now left|now right|now apply Hall].
Qed.

Lemma StronglySorted_snoc {A} (R : A -> A -> Prop) l x :
  StronglySorted R l -> Forall (fun v => R v x) l ->
  StronglySorted R (l ++ [x]).
Proof.
  intros Hs. induction Hs as [|a l Hs IH Hall]; simpl; intros Hx.
  - repeat constructor.
  - inversion Hx as [|? ? Hax Hlx]; subst. constructor.
    + now apply IH.
    + apply Forall_app. split; [assumption|]. now constructor.
Qed.

Lemma StronglySorted_filter {A} (R : A -> A -> Prop) (f : A -> bool) l :
  StronglySorted R l -> StronglySorted R (filter f l).
Proof.
  intros Hs. induction Hs as [|a l Hs IH Hall]; simpl; [constructor|].
  destruct (f a); [|assumption]. constructor; [assumption|].
  rewrite Forall_forall in *. intros w Hw. apply filter_In in Hw.
  now apply Hall.
Qed.

(** The counter's keys stand in the order of their first occurrence. *)
Lemma counter_of_keys_sorted keys :
  StronglySorted (fun v w => first_index v keys < first_index w keys)
                 (map fst (counter_of keys)).
Proof.
  induction keys as [|k keys IH] using rev_ind.
  - constructor.
  - rewrite counter_of_snoc.
    assert (Hold : StronglySorted
              (fun v w => first_index v (keys ++ [k])
                          < first_index w (keys ++ [k]))
              (map fst (counter_of keys))).
    { revert IH. apply StronglySorted_weaken. intros v w Hv Hw.
      apply (proj1 (counter_of_keys_In _ _)) in Hv.
      apply (proj1 (counter_of_keys_In _ _)) in Hw.
      rewrite (first_index_app_In v keys [k] Hv).
      rewrite (first_index_app_In w keys [k] Hw). exact (fun H => H). }
    destruct (in_dec string_dec k (map fst (counter_of keys))) as [Hin|Hnin].
    + now rewrite (counter_incr_keys_old _ _ Hin).
    + rewrite (counter_incr_keys_new _ _ Hnin).
      apply StronglySorted_snoc; [assumption|].
      rewrite Forall_forall. intros v Hv.
      apply (proj1 (counter_of_keys_In _ _)) in Hv.
      rewrite (first_index_app_In _ _ _ Hv).
      rewrite counter_of_keys_In in Hnin.
      rewrite (first_index_app_notin _ _ _ Hnin).
      pose proof (first_index_In_lt _ _ Hv). lia.
Qed.

Lemma counter_filter_keys (counter : Counter) :
  NoDup (map fst counter) ->
  map fst (filter (fun '(_, count) => Nat.ltb 1 count) counter)
  = filter (fun key => Nat.ltb 1 (counter_get key counter))
           (map fst counter).
Proof.
  induction counter as [|[k n] rest IH]; simpl; intros Hnd; [reflexivity|].
  inversion Hnd as [|? ? Hnin Hnd']; subst.
  rewrite String.eqb_refl.
  assert (Hrest : filter (fun key => Nat.ltb 1
                     (if String.eqb k key then n else counter_get key rest))
                    (map fst rest)
                  = filter (fun key => Nat.ltb 1 (counter_get key rest))
                    (map fst rest)).
  { apply filter_ext_in. intros key Hkey.
    destruct (String.eqb k key) eqn:E; [|reflexivity].
    apply String.eqb_eq in E. subst. contradiction. }
  rewrite Hrest, <- (IH Hnd').
  now destruct (Nat.ltb 1 n).
Qed.

(** *** The messages *)

Lemma append_length (s t : string) :
  String.length (s ++ t) = String.length s + String.length t.
Proof. induction s as [|c s IH]; simpl; [reflexivity|now rewrite IH]. Qed.

Lemma append_inj_l (p s t : string) : (p ++ s = p ++ t)%string -> s = t.
Proof.
  induction p as [|c p IH]; simpl; intros H; [assumption|].
  injection H as H. now apply IH.
Qed.

Lemma append_inj_r (s t q : string) : (s ++ q = t ++ q)%string -> s = t.
Proof.
  revert t. induction s as [|c s IH]; intros [|d t]; simpl; intros H.
  - reflexivity.
  - apply (f_equal String.length) in H. simpl in H.
    rewrite append_length in H. lia.
  - apply (f_equal String.length) in H. simpl in H.
    rewrite append_length in H. lia.
  - injection H as -> H. f_equal. now apply IH.
Qed.

Lemma SIM101_message_inj v w : SIM101_message v = SIM101_message w -> v = w.
Proof.
  unfold SIM101_message. intros H.
  apply append_inj_l in H. now apply append_inj_r in H.
Qed.

(** *** The loop of SIM101 *)

Lemma isinstance_key_iff operand var :
  isinstance_key operand = Some var <->
  exists lineno col_offset func arg0 arg1 keywords,
    operand = Call lineno col_offset func [arg0; arg1] keywords
    /\ render func = "isinstance" /\ render arg0 = var.
Proof.
  split.
  - destruct operand as [| | |l c func args kws| | |]; simpl; try discriminate.
    destruct args as [|a0 [|a1 [|a2 more]]]; try discriminate.
    destruct (String.eqb (render func) "isinstance") eqn:E; [|discriminate].
    apply String.eqb_eq in E. intros [= <-].
    now exists l, c, func, a0, a1, kws.
  - intros (l & c & func & a0 & a1 & kws & -> & Hf & <-). simpl.
    now rewrite Hf.
Qed.

Lemma count_isinstance_call_key counter operand :
  count_isinstance_call counter operand
  = Ok (match isinstance_key operand with
        | Some key => counter_incr key counter
        | None => counter
        end).
Proof.
  destruct operand as [| | |l c func args kws| | |]; simpl; try reflexivity.
  destruct args as [|a0 [|a1 [|a2 more]]]; simpl; try reflexivity.
  now destruct (String.eqb (render func) "isinstance").
Qed.

Lemma for_each_count values : forall counter,
  for_each count_isinstance_call values counter
  = Ok (fold_left (fun counter key => counter_incr key counter)
                  (isinstance_keys values) counter).
Proof.
  induction values as [|operand values IH]; intros counter.
  - reflexivity.
  - cbn [for_each]. rewrite count_isinstance_call_key. cbn [bind].
    rewrite IH. unfold isinstance_keys. cbn [flat_map].
    rewrite fold_left_app. now destruct (isinstance_key operand).
Qed.

Lemma by_node_duplicated_vars values :
  _get_duplicated_isinstance_call_by_node values
  = Ok (duplicated_vars values).
Proof.
  unfold _get_duplicated_isinstance_call_by_node.
  rewrite for_each_count. cbn [bind]. f_equal.
  fold (counter_of (isinstance_keys values)).
  rewrite counter_filter_keys by apply counter_of_keys_NoDup.
  unfold duplicated_vars, occurrences.
  apply filter_ext. intros key. now rewrite counter_get_counter_of.
Qed.

Lemma duplicated_vars_In var values :
  In var (duplicated_vars values) <-> 1 < occurrences var values.
Proof.
  unfold duplicated_vars. rewrite filter_In, counter_of_keys_In, Nat.ltb_lt.
  split; [tauto|]. intros Hocc. split; [|assumption].
  unfold occurrences in Hocc.
  apply (count_occ_In string_dec). lia.
Qed.

Lemma duplicated_vars_NoDup values : NoDup (duplicated_vars values).
Proof. apply NoDup_filter, counter_of_keys_NoDup. Qed.

Lemma SIM101_loop (lineno col_offset : Z) vars :
  forall errors : list Finding,
  for_each
    (fun errors var =>
       msg <- format SIM101 [("var", var)] ;;
       Ok (errors ++ [(lineno, col_offset, msg)]))
    vars errors
  = Ok (errors
        ++ map (fun var => (lineno, col_offset, SIM101_message var)) vars).
Proof.
  induction vars as [|var vars IH]; intros errors; cbn [for_each map].
  - now rewrite app_nil_r.
  - rewrite format_SIM101. cbn [bind]. rewrite IH.
    now rewrite <- app_assoc.
Qed.

Lemma duplicated_isinstance_calls_Or (lineno col_offset : Z) values :
  _get_duplicated_isinstance_calls lineno col_offset Or values
  = Ok (map (fun var => (lineno, col_offset, SIM101_message var))
            (duplicated_vars values)).
Proof.
  unfold _get_duplicated_isinstance_calls.
  rewrite by_node_duplicated_vars. cbn [bind]. now rewrite SIM101_loop.
Qed.

(** *** The shape tests of SIM201 *)

Lemma not_equal_calls_fires lineno col_offset l c cmp_left right more :
  _get_not_equal_calls lineno col_offset Not
    (Compare l c cmp_left [Eq] (right :: more))
  = Ok [(lineno, col_offset,
         SIM201_message (render cmp_left) (render right))].
Proof. reflexivity. Qed.

Lemma not_equal_calls_other_op lineno col_offset op operand :
  op <> Not -> _get_not_equal_calls lineno col_offset op operand = Ok [].
Proof. destruct op; intros H; try reflexivity. congruence. Qed.

Lemma not_equal_calls_chained lineno col_offset op l c cmp_left ops cs :
  List.length ops <> 1 ->
  _get_not_equal_calls lineno col_offset op (Compare l c cmp_left ops cs)
  = Ok [].
Proof.
  intros Hlen. destruct op; try reflexivity. simpl.
  destruct (Nat.eqb (List.length ops) 1) eqn:E; [|reflexivity].
  apply Nat.eqb_eq in E. contradiction.
Qed.

Lemma not_equal_calls_other_cmp lineno col_offset op l c cmp_left op0 cs :
  op0 <> Eq ->
  _get_not_equal_calls lineno col_offset op (Compare l c cmp_left [op0] cs)
  = Ok [].
Proof.
  intros Hop. destruct op; try reflexivity.
  destruct op0; try reflexivity. congruence.
Qed.

Lemma not_equal_calls_not_compare lineno col_offset op operand :
  (forall l c cmp_left ops cs, operand <> Compare l c cmp_left ops cs) ->
  _get_not_equal_calls lineno col_offset op operand = Ok [].
Proof.
  intros Hshape. destruct op; try reflexivity.
  destruct operand; try reflexivity. exfalso. now eapply Hshape.
Qed.

(** *** Totality of the predicates *)

Lemma duplicated_isinstance_calls_total lineno col_offset op values :
  exists found,
    _get_duplicated_isinstance_calls lineno col_offset op values = Ok found.
Proof.
  destruct op.
  - now exists [].
  - eexists. apply duplicated_isinstance_calls_Or.
Qed.

Lemma not_equal_calls_total lineno col_offset op operand :
  well_formed operand = true ->
  exists found, _get_not_equal_calls lineno col_offset op operand = Ok found.
Proof.
  intros Hwf. destruct op; try (eexists; reflexivity).
  destruct operand as [| |l c cmp_left ops cs| | | |];
    try (eexists; reflexivity).
  simpl in Hwf. apply andb_prop in Hwf as [Hwf _].
  apply andb_prop in Hwf as [Hlen _]. apply Nat.eqb_eq in Hlen.
  destruct ops as [|op0 [|op1 ops]]; try (eexists; reflexivity).
  destruct cs as [|right more]; [discriminate|].
  destruct op0; eexists; reflexivity.
Qed.

Lemma check_node_total n :
  well_formed n = true -> check_node n = Ok (node_findings n).
Proof.
  intros Hwf. unfold node_findings.
  assert (H : exists found, check_node n = Ok found).
  { destruct n; try (eexists; reflexivity).
    - apply duplicated_isinstance_calls_total.
    - now apply not_equal_calls_total. }
  destruct H as [found ->]. reflexivity.
Qed.

(** *** The traversal *)

Lemma flat_map_flat_map {A B C} (f : A -> list B) (g : B -> list C) l :
  flat_map g (flat_map f l) = flat_map (fun x => flat_map g (f x)) l.
Proof.
  induction l as [|x l IH]; simpl; [reflexivity|].
  now rewrite flat_map_app, IH.
Qed.

Lemma visit_each_preorder nodes :
  Forall (fun m => well_formed m = true -> forall errors,
            visit m errors
            = Ok (errors ++ flat_map node_findings (preorder m))) nodes ->
  forallb well_formed nodes = true ->
  forall errors,
    visit_each visit nodes errors
    = Ok (errors ++ flat_map node_findings (flat_map preorder nodes)).
Proof.
  induction 1 as [|m rest Hm _ IH]; intros Hwf errors; simpl.
  - now rewrite app_nil_r.
  - simpl in Hwf. apply andb_prop in Hwf as [Hwf_m Hwf_rest].
    rewrite (Hm Hwf_m). cbn [bind]. rewrite (IH Hwf_rest).
    now rewrite flat_map_app, app_assoc.
Qed.

(** The visitor collects the findings of every node, in pre-order. *)
Lemma visit_preorder n :
  well_formed n = true ->
  forall errors,
    visit n errors = Ok (errors ++ flat_map node_findings (preorder n)).
Proof.
  induction n using node_nested_ind; intros Hwf errors.
  - cbn [visit]. change (_get_duplicated_isinstance_calls l c op values)
      with (check_node (BoolOp l c op values)).
    rewrite (check_node_total _ Hwf). cbn [bind].
    rewrite visit_each_preorder by assumption. preorder_done.
  - cbn [visit]. change (_get_not_equal_calls l c op n)
      with (check_node (UnaryOp l c op n)).
    rewrite (check_node_total _ Hwf). cbn [bind].
    rewrite IHn by exact Hwf. preorder_done.
  - cbn [well_formed] in Hwf. apply andb_prop in Hwf as [Hwf Hcs].
    apply andb_prop in Hwf as [_ Hleft].
    cbn [visit]. rewrite IHn by assumption. cbn [bind].
    rewrite visit_each_preorder by assumption. preorder_done.
  - cbn [well_formed] in Hwf. apply andb_prop in Hwf as [Hwf Hkws].
    apply andb_prop in Hwf as [Hfunc Hargs].
    cbn [visit]. rewrite IHn by assumption. cbn [bind].
    rewrite visit_each_preorder by assumption. cbn [bind].
    rewrite visit_each_preorder by assumption. preorder_done.
  - cbn. now rewrite app_nil_r.
  - cbn [visit]. rewrite IHn by exact Hwf. reflexivity.
  - cbn [visit]. rewrite visit_each_preorder by assumption. reflexivity.
Qed.

(** *** Further facts used by the properties *)

Lemma first_index_first_operand values : forall v w,
  first_index v (isinstance_keys values)
  < first_index w (isinstance_keys values) ->
  first_operand v values < first_operand w values.
Proof.
induction values as [|operand values IH]; intros v w; cbn [first_operand].
- cbn. lia.
- unfold isinstance_keys. cbn [flat_map].
  fold (isinstance_keys values).
  destruct (isinstance_key operand) as [key|]; cbn [app first_index].
  + destruct (String.eqb key v), (String.eqb key w); try lia.
    intros H. apply Nat.succ_lt_mono in H. apply IH in H. lia.
  + intros H. apply IH in H. lia.
Qed.

Lemma run_visit root found :
  visit root [] = Ok found ->
  run root
  = Ok (map (fun '(line, col, msg) => (line, col, msg, Plugin)) found).
Proof. unfold run. now intros ->. Qed.

Lemma counter_incr_changes key counter : counter_incr key counter <> counter.
Proof.
intros H. apply (f_equal (counter_get key)) in H.
rewrite counter_get_incr, String.eqb_refl in H. lia.
Qed.

Lemma SIM101_findings_count (lineno col_offset : Z) values var :
  count_occ Finding_eq_dec
    (map (fun var => (lineno, col_offset, SIM101_message var))
         (duplicated_vars values))
    (lineno, col_offset, SIM101_message var)
  = if Nat.ltb 1 (occurrences var values) then 1 else 0.
Proof.
rewrite <- (count_occ_map
              (fun var => (lineno, col_offset, SIM101_message var))
              string_dec Finding_eq_dec).
- destruct (Nat.ltb 1 (occurrences var values)) eqn:E.
  + apply Nat.ltb_lt, duplicated_vars_In in E.
    now apply (NoDup_count_occ' string_dec); [apply duplicated_vars_NoDup|].
  + apply (count_occ_not_In string_dec). rewrite duplicated_vars_In.
    apply Nat.ltb_ge in E. lia.
- intros v w H. apply (f_equal snd) in H. cbn [snd] in H.
  now apply SIM101_message_inj.
Qed.

Lemma isinstance_keys_app before after :
  isinstance_keys (before ++ after)
  = isinstance_keys before ++ isinstance_keys after.
Proof. apply flat_map_app. Qed.

Lemma isinstance_keys_skip before operand after :
  isinstance_key operand = None ->
  isinstance_keys (before ++ operand :: after)
  = isinstance_keys (before ++ after).
Proof.
intros Hkey. rewrite !isinstance_keys_app. f_equal.
unfold isinstance_keys. cbn [flat_map]. now rewrite Hkey.
Qed.

Lemma preorder_children n :
  preorder n = n :: flat_map preorder (child_nodes n).
Proof.
destruct n; cbn [preorder child_nodes flat_map];
  rewrite ?flat_map_app, ?app_nil_r; reflexivity.
Qed.

Lemma preorder_self n : In n (preorder n).
Proof. rewrite preorder_children. now left. Qed.

Lemma well_formed_children n :
  well_formed n = true -> forallb well_formed (child_nodes n) = true.
Proof.
destruct n; cbn [well_formed child_nodes forallb]; intros Hwf;
  rewrite ?forallb_app, ?andb_true_r; try assumption; try reflexivity.
- apply andb_prop in Hwf as [Hwf Hcs]. apply andb_prop in Hwf as [_ Hleft].
  now rewrite Hleft, Hcs.
- apply andb_prop in Hwf as [Hwf Hkws]. apply andb_prop in Hwf as [Hf Hargs].
  now rewrite Hf, Hargs, Hkws.
Qed.

Lemma well_formed_preorder n :
  well_formed n = true ->
  forall m, In m (preorder n) -> well_formed m = true.
Proof.
assert (Hlist : forall nodes,
  Forall (fun n => well_formed n = true ->
            forall m, In m (preorder n) -> well_formed m = true) nodes ->
  forallb well_formed nodes = true ->
  forall m, In m (flat_map preorder nodes) -> well_formed m = true).
{ intros nodes Hall Hwf m Hm. apply in_flat_map in Hm as (k & Hk & Hm).
  rewrite Forall_forall in Hall. rewrite forallb_forall in Hwf.
  exact (Hall k Hk (Hwf k Hk) m Hm). }
induction n using node_nested_ind; intros Hwf m Hm;
  rewrite preorder_children in Hm; destruct Hm as [<-|Hm]; try assumption;
  apply well_formed_children in Hwf; cbn [child_nodes] in Hwf, Hm.
- now apply (Hlist values).
- apply (Hlist [n]); auto.
- apply (Hlist (n :: comparators)); auto.
- apply (Hlist (n :: args ++ keywords)); auto.
  constructor; [assumption|]. apply Forall_app. now split.
- contradiction.
- apply (Hlist [n]); auto.
- now apply (Hlist children).
Qed.

(** The outcomes of [_get_not_equal_calls] on a well-formed operand. *)
Lemma not_equal_calls_cases (lineno col_offset : Z) op operand :
  well_formed operand = true ->
  (op = Not /\ exists l c cmp_left right,
      operand = Compare l c cmp_left [Eq] [right]
      /\ _get_not_equal_calls lineno col_offset op operand
         = Ok [(lineno, col_offset,
                SIM201_message (render cmp_left) (render right))])
  \/ ((op <> Not
       \/ forall l c cmp_left cs, operand <> Compare l c cmp_left [Eq] cs)
      /\ _get_not_equal_calls lineno col_offset op operand = Ok []).
Proof.
intros Hwf.
destruct op; try (right; split; [left; discriminate|reflexivity]).
destruct operand as [| |l c cmp_left ops cs| | | |];
  try (right; split; [right; discriminate|reflexivity]).
cbn [well_formed] in Hwf. apply andb_prop in Hwf as [Hwf _].
apply andb_prop in Hwf as [Hlen _]. apply Nat.eqb_eq in Hlen.
destruct ops as [|op0 [|op1 ops]];
  try (right; split; [right; discriminate|reflexivity]).
destruct cs as [|right [|right' more]]; try discriminate.
destruct op0; try (right; split; [right; discriminate|reflexivity]).
left. split; [reflexivity|]. now exists l, c, cmp_left, right.
Qed.

(** ** Properties of the checks *)

(** C1: at a boolean-or node the duplicate-isinstance predicate counts a
    direct operand exactly when the operand is itself a call whose [args]
    has two entries and whose rendered callee is the string [isinstance]
    (nested boolean expressions are not entered), under the rendered text
    of the call's first argument; after the scan it returns exactly one
    SIM101 finding, at the or-node's own line and column, for every key
    whose count exceeds 1, and nothing else. *)
Theorem duplicated_isinstance_findings_C1
  (lineno col_offset : Z) (values : list node) :
  (forall counter operand,
      count_isinstance_call counter operand <> Ok counter <->
      exists l c func arg0 arg1 keywords,
        operand = Call l c func [arg0; arg1] keywords
        /\ render func = "isinstance")
  /\ (forall counter l c func arg0 arg1 keywords,
         render func = "isinstance" ->
         count_isinstance_call counter (Call l c func [arg0; arg1] keywords)
         = Ok (counter_incr (render arg0) counter))
  /\ (forall operand var,
         isinstance_key operand = Some var <->
         exists l c func arg0 arg1 keywords,
           operand = Call l c func [arg0; arg1] keywords
           /\ render func = "isinstance" /\ render arg0 = var)
  /\ (exists counter,
         for_each count_isinstance_call values [] = Ok counter
         /\ forall var, counter_get var counter = occurrences var values)
  /\ exists found,
       _get_duplicated_isinstance_calls lineno col_offset Or values = Ok found
       /\ (forall f, In f found ->
             exists var, 1 < occurrences var values
                         /\ f = (lineno, col_offset, SIM101_message var))
       /\ forall var,
            count_occ Finding_eq_dec found
                      (lineno, col_offset, SIM101_message var)
            = if Nat.ltb 1 (occurrences var values) then 1 else 0.
Proof.
split; [|split; [|split; [|split]]].
- intros counter operand. rewrite count_isinstance_call_key. split.
  + destruct (isinstance_key operand) as [key|] eqn:E; [|congruence].
    intros _. apply isinstance_key_iff in E.
    destruct E as (l & c & func & a0 & a1 & kws & -> & Hf & _).
    now exists l, c, func, a0, a1, kws.
  + intros (l & c & func & a0 & a1 & kws & -> & Hf). cbn. rewrite Hf. cbn.
    intros [= H]. now apply counter_incr_changes in H.
- intros counter l c func a0 a1 kws Hf.
  rewrite count_isinstance_call_key. cbn. now rewrite Hf.
- apply isinstance_key_iff.
- eexists. split; [apply for_each_count|].
  intros var. apply counter_get_counter_of.
- eexists. split; [apply duplicated_isinstance_calls_Or|]. split.
  + intros f Hf. apply in_map_iff in Hf as (var & <- & Hvar).
    exists var. split; [|reflexivity]. now apply duplicated_vars_In.
  + apply SIM101_findings_count.
Qed.

(** C5: for a boolean operation whose operator is not [or], the
    duplicate-isinstance predicate returns the empty list, whatever the
    operands are. *)
Theorem duplicated_isinstance_not_or_C5
  (lineno col_offset : Z) (op : boolop) (values : list node) :
  op <> Or ->
  _get_duplicated_isinstance_calls lineno col_offset op values = Ok [].
Proof. destruct op; [reflexivity|congruence]. Qed.

(** C7: a direct operand that is a call rendered as [isinstance] but whose
    [args] does not have exactly two entries leaves the counter as it is,
    and the or-node's result is the one of the node without that operand. *)
Theorem isinstance_other_arity_C7
  (lineno col_offset l c : Z) (func : node) (args keywords : list node)
  (before after : list node) :
  render func = "isinstance" ->
  List.length args <> 2 ->
  (forall counter,
      count_isinstance_call counter (Call l c func args keywords)
      = Ok counter)
  /\ _get_duplicated_isinstance_call_by_node
       (before ++ Call l c func args keywords :: after)
     = _get_duplicated_isinstance_call_by_node (before ++ after)
  /\ _get_duplicated_isinstance_calls lineno col_offset Or
       (before ++ Call l c func args keywords :: after)
     = _get_duplicated_isinstance_calls lineno col_offset Or
         (before ++ after).
Proof.
intros _ Hlen.
assert (Hkey : isinstance_key (Call l c func args keywords) = None).
{ destruct args as [|a0 [|a1 [|a2 more]]]; try reflexivity.
  now contradiction Hlen. }
assert (Hvars : duplicated_vars (before ++ Call l c func args keywords :: after)
                = duplicated_vars (before ++ after)).
{ unfold duplicated_vars, occurrences.
  now rewrite (isinstance_keys_skip _ _ _ Hkey). }
split; [|split].
- intros counter. now rewrite count_isinstance_call_key, Hkey.
- now rewrite !by_node_duplicated_vars, Hvars.
- now rewrite !duplicated_isinstance_calls_Or, Hvars.
Qed.

(** C8: an or-node whose direct operands are three isinstance calls with
    the same rendered first argument yields exactly one SIM101 finding for
    that variable. *)
Theorem three_way_duplicate_C8
  (lineno col_offset l1 c1 l2 c2 l3 c3 : Z)
  (f1 f2 f3 a1 a2 a3 t1 t2 t3 : node) (k1 k2 k3 : list node) (var : string) :
  render f1 = "isinstance" -> render f2 = "isinstance" ->
  render f3 = "isinstance" ->
  render a1 = var -> render a2 = var -> render a3 = var ->
  _get_duplicated_isinstance_calls lineno col_offset Or
    [Call l1 c1 f1 [a1; t1] k1; Call l2 c2 f2 [a2; t2] k2;
     Call l3 c3 f3 [a3; t3] k3]
  = Ok [(lineno, col_offset, SIM101_message var)].
Proof.
intros Hf1 Hf2 Hf3 Ha1 Ha2 Ha3.
rewrite duplicated_isinstance_calls_Or.
set (values := [Call l1 c1 f1 [a1; t1] k1; Call l2 c2 f2 [a2; t2] k2;
                Call l3 c3 f3 [a3; t3] k3]).
assert (Hkeys : isinstance_keys values = [var; var; var]).
{ unfold isinstance_keys, values. cbn [flat_map isinstance_key app].
  now rewrite Hf1, Hf2, Hf3, Ha1, Ha2, Ha3. }
assert (Hcount : counter_of [var; var; var] = [(var, 3)]).
{ unfold counter_of.
  repeat (cbn [fold_left counter_incr]; rewrite ?String.eqb_refl).
  reflexivity. }
unfold duplicated_vars, occurrences. rewrite Hkeys, Hcount.
cbn [map fst filter count_occ].
destruct (string_dec var var) as [_|Hne]; [reflexivity|congruence].
Qed.

(** C10: the SIM101 findings of one or-node stand in the order in which
    their variables first occur among the node's direct operands, all at
    the node's position. *)
Theorem duplicated_isinstance_order_C10
  (lineno col_offset : Z) (values : list node) :
  exists vars,
    _get_duplicated_isinstance_calls lineno col_offset Or values
    = Ok (map (fun var => (lineno, col_offset, SIM101_message var)) vars)
    /\ (forall var, In var vars <-> 1 < occurrences var values)
    /\ StronglySorted
         (fun v w => first_operand v values < first_operand w values)
         vars.
Proof.
exists (duplicated_vars values). split; [|split].
- apply duplicated_isinstance_calls_Or.
- intros var. apply duplicated_vars_In.
- apply StronglySorted_filter.
  apply (StronglySorted_weaken
           (fun v w => first_index v (isinstance_keys values)
                       < first_index w (isinstance_keys values))).
  + intros v w _ _. apply first_index_first_operand.
  + apply counter_of_keys_sorted.
Qed.

(** C2: at a unary-operation node of a well-formed tree the
    negated-equality predicate returns a finding exactly when the operator
    is [not], the operand is a comparison, the comparison has exactly one
    operator and that operator is [==]; it then returns exactly one
    finding, at the line and column of the [not] node, whose message is
    the SIM201 text with the rendered left operand and the rendered single
    comparator. *)
Theorem negated_equality_finding_C2
  (lineno col_offset : Z) (op : unaryop) (operand : node) :
  well_formed operand = true ->
  exists found,
    _get_not_equal_calls lineno col_offset op operand = Ok found
    /\ (found <> [] <->
        op = Not
        /\ exists l c cmp_left comparators,
             operand = Compare l c cmp_left [Eq] comparators)
    /\ forall l c cmp_left comparators,
         op = Not ->
         operand = Compare l c cmp_left [Eq] comparators ->
         exists right,
           comparators = [right]
           /\ found
              = [(lineno, col_offset,
                  ("SIM201 Used 'not " ++ render cmp_left ++ " == "
                   ++ render right ++ "' instead of '" ++ render cmp_left
                   ++ " != " ++ render right ++ "'")%string)].
Proof.
intros Hwf.
destruct (not_equal_calls_cases lineno col_offset op operand Hwf)
  as [(Hop & l & c & cmp_left & right & Hoperand & Hres)
     |(Hshape & Hres)]; rewrite Hres; eexists; (split; [reflexivity|]).
- split.
  + split; [|discriminate]. intros _. split; [assumption|].
    now exists l, c, cmp_left, [right].
  + intros l' c' cmp_left' cs _ Heq. rewrite Hoperand in Heq.
    injection Heq as <- <- <- <-. now exists right.
- split.
  + split; [congruence|]. intros (Hop & l & c & cmp_left & cs & Hoperand).
    destruct Hshape as [Hnot|Hshape]; [contradiction|].
    now contradiction (Hshape l c cmp_left cs).
  + intros l c cmp_left cs Hop Hoperand.
    destruct Hshape as [Hnot|Hshape]; [contradiction|].
    now contradiction (Hshape l c cmp_left cs).
Qed.

(** C6: at a [not] node whose operand is a chained comparison (more than
    one operator), a comparison by a single operator other than [==] (an
    inequality among them), or no comparison at all, the negated-equality
    predicate returns normally with no finding. *)
Theorem negated_equality_non_match_C6
  (lineno col_offset : Z) (operand : node) :
  (exists l c cmp_left ops comparators,
      operand = Compare l c cmp_left ops comparators
      /\ (1 < List.length ops \/ exists op0, ops = [op0] /\ op0 <> Eq))
  \/ (forall l c cmp_left ops comparators,
        operand <> Compare l c cmp_left ops comparators) ->
  _get_not_equal_calls lineno col_offset Not operand = Ok [].
Proof.
intros [(l & c & cmp_left & ops & cs & -> & [Hlen|(op0 & -> & Hop)])|Hshape].
- apply not_equal_calls_chained. lia.
- now apply not_equal_calls_other_cmp.
- now apply not_equal_calls_not_compare.
Qed.

(** C3: the traversal is depth-first pre-order and prunes nothing: on a
    well-formed tree the visitor extends its errors by the findings of
    every node of the tree in pre-order, the node's own before those of its
    children, whether or not the node had a finding.  In particular, at an
    or-node one of whose direct operands is itself an or-node with a
    duplicated isinstance check, the inner node is not counted by the outer
    one, and the output holds the outer node's findings followed by others
    among which is the inner node's finding at the inner node's position. *)
Theorem traversal_preorder_C3 (root : node) :
  well_formed root = true ->
  preorder root = root :: flat_map preorder (child_nodes root)
  /\ (forall m, In m (preorder root) -> check_node m = Ok (node_findings m))
  /\ (forall errors,
        visit root errors
        = Ok (errors ++ flat_map node_findings (preorder root)))
  /\ forall lineno col_offset values l c values' var errors,
       root = BoolOp lineno col_offset Or values ->
       In (BoolOp l c Or values') values ->
       1 < occurrences var values' ->
       (forall counter,
           count_isinstance_call counter (BoolOp l c Or values') = Ok counter)
       /\ exists outer rest,
            _get_duplicated_isinstance_calls lineno col_offset Or values
            = Ok outer
            /\ visit root errors = Ok (errors ++ outer ++ rest)
            /\ In (l, c, SIM101_message var) rest.
Proof.
intros Hwf. split; [apply preorder_children|]. split; [|split].
- intros m Hm. apply check_node_total. now apply (well_formed_preorder root).
- now apply visit_preorder.
- intros lineno col_offset values l c values' var errors -> Hin Hocc.
  split; [reflexivity|].
  exists (node_findings (BoolOp lineno col_offset Or values)),
         (flat_map node_findings (flat_map preorder values)).
  split; [|split].
  + apply (check_node_total (BoolOp lineno col_offset Or values) Hwf).
  + now rewrite (visit_preorder _ Hwf).
  + apply in_flat_map. exists (BoolOp l c Or values'). split.
    * apply in_flat_map. exists (BoolOp l c Or values').
      split; [assumption|apply preorder_self].
    * unfold node_findings, check_node.
      rewrite duplicated_isinstance_calls_Or. apply in_map_iff.
      exists var. split; [reflexivity|]. now apply duplicated_vars_In.
Qed.

(** C4: every finding accumulated during a run over a well-formed tree
    carries the line and column of the node that triggered it: an or-node
    of the tree with a duplicated isinstance check for SIM101, a [not] node
    of the tree over a single [==] comparison for SIM201. *)
Theorem finding_positions_C4 (root : node) :
  well_formed root = true ->
  exists found,
    visit root [] = Ok found
    /\ run root
       = Ok (map (fun '(line, col, msg) => (line, col, msg, Plugin)) found)
    /\ forall f, In f found ->
         (exists lineno col_offset values var,
             In (BoolOp lineno col_offset Or values) (preorder root)
             /\ 1 < occurrences var values
             /\ f = (lineno, col_offset, SIM101_message var))
         \/ (exists lineno col_offset l c cmp_left right,
               In (UnaryOp lineno col_offset Not
                     (Compare l c cmp_left [Eq] [right]))
                  (preorder root)
               /\ f = (lineno, col_offset,
                       SIM201_message (render cmp_left) (render right))).
Proof.
intros Hwf. eexists. split; [apply (visit_preorder root Hwf)|].
split; [apply run_visit, (visit_preorder root Hwf)|].
cbn [app]. intros f Hf. apply in_flat_map in Hf as (m & Hm & Hf).
pose proof (well_formed_preorder root Hwf m Hm) as Hwf_m.
unfold node_findings in Hf.
destruct m as [lineno col_offset op values|lineno col_offset op operand
              | | | | |]; cbn [check_node] in Hf; try contradiction.
- destruct op; [contradiction|].
  rewrite duplicated_isinstance_calls_Or in Hf.
  apply in_map_iff in Hf as (var & <- & Hvar). left.
  exists lineno, col_offset, values, var.
  split; [assumption|]. split; [|reflexivity]. now apply duplicated_vars_In.
- destruct (not_equal_calls_cases lineno col_offset op operand Hwf_m)
    as [(-> & l & c & cmp_left & right & -> & Hres)|(_ & Hres)];
    rewrite Hres in Hf; [|contradiction].
  destruct Hf as [<-|[]]. right.
  now exists lineno, col_offset, l, c, cmp_left, right.
Qed.

(** ** Further properties of the checks *)

(** *** Outcomes on arbitrary trees *)

Lemma check_node_outcome n :
  check_node n
  = if lacks_comparator n then Raise IndexError else Ok (node_findings n).
Proof.
destruct n as [l c op values|l c op operand| | | | |]; try reflexivity.
- unfold node_findings. cbn [check_node lacks_comparator].
  now destruct (duplicated_isinstance_calls_total l c op values) as [? ->].
- destruct op; try reflexivity.
  destruct operand as [| |cl cc cmp_left ops cs| | | |]; try reflexivity.
  destruct ops as [|op0 [|op1 ops]]; try reflexivity;
    destruct op0; try reflexivity.
  destruct cs; reflexivity.
Qed.

Lemma visit_each_outcome nodes :
  Forall (fun m => forall errors,
            visit m errors
            = if existsb lacks_comparator (preorder m) then Raise IndexError
              else Ok (errors ++ flat_map node_findings (preorder m))) nodes ->
  forall errors,
    visit_each visit nodes errors
    = if existsb lacks_comparator (flat_map preorder nodes)
      then Raise IndexError
      else Ok (errors ++ flat_map node_findings (flat_map preorder nodes)).
Proof.
induction 1 as [|m rest Hm _ IH]; intros errors; cbn [visit_each flat_map].
- cbn. now rewrite app_nil_r.
- rewrite Hm, existsb_app.
  destruct (existsb lacks_comparator (preorder m)); cbn [bind orb];
    [reflexivity|].
  rewrite IH.
  destruct (existsb lacks_comparator (flat_map preorder rest));
    [reflexivity|].
  now rewrite flat_map_app, app_assoc.
Qed.

Ltac outcome_step :=
  match goal with
  | |- context [existsb _ (_ ++ _)] => rewrite existsb_app
  | IH : forall errors, visit ?m errors = _
    |- context [visit ?m _] => rewrite IH
  | H : Forall _ ?nodes |- context [visit_each visit ?nodes _] =>
      rewrite (visit_each_outcome nodes H)
  | |- context [if existsb lacks_comparator ?l then _ else _] =>
      destruct (existsb lacks_comparator l); cbn [bind orb]; try reflexivity
  end.

Ltac outcome_done :=
  repeat outcome_step;
  try (rewrite ?flat_map_app, <- ?app_assoc; reflexivity).

(** What a visit returns on any tree, well formed or not. *)
Lemma visit_outcome n : forall errors,
  visit n errors
  = if existsb lacks_comparator (preorder n) then Raise IndexError
    else Ok (errors ++ flat_map node_findings (preorder n)).
Proof.
induction n using node_nested_ind; intros errors;
  cbn [visit preorder existsb flat_map].
- change (_get_duplicated_isinstance_calls l c op values)
    with (check_node (BoolOp l c op values)).
  rewrite check_node_outcome. cbn [lacks_comparator bind orb].
  outcome_done.
- change (_get_not_equal_calls l c op n)
    with (check_node (UnaryOp l c op n)).
  rewrite check_node_outcome.
  destruct (lacks_comparator (UnaryOp l c op n)); cbn [bind orb];
    [reflexivity|].
  outcome_done.
- cbn [lacks_comparator orb]. outcome_done.
- cbn [lacks_comparator orb]. outcome_done.
- cbn. now rewrite app_nil_r.
- cbn [lacks_comparator orb]. outcome_done.
- cbn [lacks_comparator orb]. outcome_done.
Qed.

(** X1: a visit only appends: what it returns from any list of errors is
    that list followed by what it returns from the empty list, and it raises
    from one exactly when it raises from the other. *)
Theorem visit_appends_X1 (n : node) (errors : list Finding) :
  visit n errors = (found <- visit n [] ;; Ok (errors ++ found)).
Proof.
rewrite (visit_outcome n errors), (visit_outcome n []).
now destruct (existsb lacks_comparator (preorder n)).
Qed.

(** *** Facts about the counted keys *)

Lemma occurrences_app var before after :
  occurrences var (before ++ after)
  = occurrences var before + occurrences var after.
Proof.
unfold occurrences. now rewrite isinstance_keys_app, count_occ_app.
Qed.

Lemma isinstance_keys_length values :
  List.length (isinstance_keys values) <= List.length values.
Proof.
induction values as [|operand values IH]; [cbn; lia|].
unfold isinstance_keys in *. cbn [flat_map]. rewrite length_app.
destruct (isinstance_key operand); cbn [List.length] in *; lia.
Qed.

Lemma remove_length_count (key : string) keys :
  List.length (remove string_dec key keys) + count_occ string_dec keys key
  = List.length keys.
Proof.
induction keys as [|k keys IH]; cbn; [reflexivity|].
destruct (string_dec key k) as [->|Hne].
- destruct (string_dec k k); [lia|congruence].
- destruct (string_dec k key); [congruence|]. cbn. lia.
Qed.

Lemma remove_count_other (key other : string) keys :
  key <> other ->
  count_occ string_dec (remove string_dec key keys) other
  = count_occ string_dec keys other.
Proof.
intros Hne. induction keys as [|k keys IH]; cbn; [reflexivity|].
destruct (string_dec key k) as [->|Hk].
- destruct (string_dec k other); [congruence|assumption].
- cbn. now destruct (string_dec k other); rewrite IH.
Qed.

(** Keys that each occur twice take up two places each. *)
Lemma twice_counted_bound vars : forall keys,
  NoDup vars ->
  (forall var, In var vars -> 2 <= count_occ string_dec keys var) ->
  2 * List.length vars <= List.length keys.
Proof.
induction vars as [|var vars IH]; intros keys Hnd Htwice; [cbn; lia|].
inversion Hnd as [|? ? Hnin Hnd']; subst.
pose proof (Htwice var (or_introl eq_refl)) as Hvar.
pose proof (remove_length_count var keys) as Hlen.
assert (Hrest : 2 * List.length vars
                <= List.length (remove string_dec var keys)).
{ apply IH; [assumption|]. intros w Hw.
  rewrite remove_count_other; [apply Htwice; now right|].
  intros ->. contradiction. }
cbn [List.length]. lia.
Qed.

Lemma duplicated_vars_nil values :
  duplicated_vars values = [] <-> forall var, occurrences var values <= 1.
Proof.
split.
- intros Hnil var.
  destruct (Nat.le_gt_cases (occurrences var values) 1) as [|Hgt];
    [assumption|].
  apply duplicated_vars_In in Hgt. rewrite Hnil in Hgt. contradiction.
- intros Hle. destruct (duplicated_vars values) as [|var vars] eqn:E;
    [reflexivity|].
  assert (Hin : In var (duplicated_vars values)) by (rewrite E; now left).
  apply duplicated_vars_In in Hin. specialize (Hle var). lia.
Qed.

Lemma flat_map_nil {A B} (f : A -> list B) l :
  flat_map f l = [] <-> forall x, In x l -> f x = [].
Proof.
induction l as [|a l IH]; cbn.
- tauto.
- split.
  + intros H. apply app_eq_nil in H as [Ha Hl]. rewrite IH in Hl.
    intros x [<-|Hx]; auto.
  + intros H. rewrite (H a (or_introl eq_refl)). cbn.
    apply IH. intros x Hx. apply H. now right.
Qed.

(** The findings of a node carry one of the two messages. *)
Lemma node_findings_message m f :
  In f (node_findings m) ->
  (exists l c var, f = (l, c, SIM101_message var))
  \/ (exists l c left right, f = (l, c, SIM201_message left right)).
Proof.
unfold node_findings.
destruct m as [l c op values|l c op operand| | | | |];
  cbn [check_node]; try contradiction.
- destruct op; [contradiction|].
  rewrite duplicated_isinstance_calls_Or. intros Hf.
  apply in_map_iff in Hf as (var & <- & _). left. now exists l, c, var.
- destruct op; try contradiction.
  destruct operand as [| |cl cc cmp_left ops cs| | | |]; try contradiction.
  destruct ops as [|op0 [|op1 ops]]; try contradiction;
    destruct op0; try contradiction.
  destruct cs as [|right more]; [contradiction|].
  rewrite not_equal_calls_fires. intros [<-|[]]. right.
  now exists l, c, (render cmp_left), (render right).
Qed.

(** *** Further properties *)

(** X4: the run over a well-formed tree yields nothing exactly when no
    or-node of the tree has two direct operands that are isinstance calls
    on the same rendered first argument and no [not] node of the tree
    stands over a single [==] comparison. *)
Theorem run_silent_X4 (tree : node) :
  well_formed tree = true ->
  (run tree = Ok [] <->
   (forall l c values var,
       In (BoolOp l c Or values) (preorder tree) ->
       occurrences var values <= 1)
   /\ (forall l c cl cc cmp_left right,
         ~ In (UnaryOp l c Not (Compare cl cc cmp_left [Eq] [right]))
              (preorder tree))).
Proof.
intros Hwf.
rewrite (run_visit tree _ (visit_preorder tree Hwf [])). cbn [app].
assert (Hmap : forall found : list Finding,
  Ok (map (fun '(line, col, msg) => (line, col, msg, Plugin)) found)
  = Ok [] <-> found = []).
{ intros found. split; [|now intros ->].
  intros [= H]. now apply map_eq_nil in H. }
rewrite Hmap, flat_map_nil. split.
- intros Hnone. split.
  + intros l c values var Hm. specialize (Hnone _ Hm).
    unfold node_findings, check_node in Hnone.
    rewrite duplicated_isinstance_calls_Or in Hnone.
    apply map_eq_nil in Hnone. now apply duplicated_vars_nil.
  + intros l c cl cc cmp_left right Hm. specialize (Hnone _ Hm).
    unfold node_findings, check_node in Hnone.
    rewrite not_equal_calls_fires in Hnone. discriminate.
- intros [Hor Hnot] m Hm.
  pose proof (well_formed_preorder tree Hwf m Hm) as Hwf_m.
  unfold node_findings.
  destruct m as [l c op values|l c op operand| | | | |];
    cbn [check_node]; try reflexivity.
  + destruct op; [reflexivity|].
    rewrite duplicated_isinstance_calls_Or.
    replace (duplicated_vars values) with (@nil string); [reflexivity|].
    symmetry. apply duplicated_vars_nil. intros var. now apply (Hor l c).
  + destruct (not_equal_calls_cases l c op operand Hwf_m)
      as [(-> & cl & cc & cmp_left & right & -> & _)|(_ & ->)];
      [|reflexivity].
    now contradiction (Hnot l c cl cc cmp_left right).
Qed.

(** X5: every message a run yields starts with the code of its rule,
    [SIM101] or [SIM201], followed by a space. *)
Theorem run_message_codes_X5
  (tree : node) (out : list (Z * Z * string * plugin_type)) :
  run tree = Ok out ->
  forall line col msg cls,
    In (line, col, msg, cls) out ->
    prefix "SIM101 " msg = true \/ prefix "SIM201 " msg = true.
Proof.
unfold run. rewrite visit_outcome.
destruct (existsb lacks_comparator (preorder tree)); [discriminate|].
cbn [bind app]. intros [= <-] line col msg cls Hin.
apply in_map_iff in Hin as ([[line' col'] msg'] & [= -> -> -> _] & Hf).
apply in_flat_map in Hf as (m & _ & Hf).
apply node_findings_message in Hf
  as [(l & c & var & [= _ _ ->])|(l & c & left & right & [= _ _ ->])].
- now left.
- now right.
Qed.

(** X6: reordering the operands of an or-node only reorders its findings:
    the two lists of findings are permutations of each other. *)
Theorem duplicated_isinstance_permutation_X6
  (lineno col_offset : Z) (values values' : list node) :
  Permutation values values' ->
  exists found found',
    _get_duplicated_isinstance_calls lineno col_offset Or values = Ok found
    /\ _get_duplicated_isinstance_calls lineno col_offset Or values'
       = Ok found'
    /\ Permutation found found'.
Proof.
intros Hperm. rewrite !duplicated_isinstance_calls_Or.
do 2 eexists. split; [reflexivity|]. split; [reflexivity|].
apply Permutation_map.
apply NoDup_Permutation; try apply duplicated_vars_NoDup.
intros var. rewrite !duplicated_vars_In. unfold occurrences.
assert (Hkeys : Permutation (isinstance_keys values)
                            (isinstance_keys values'))
  by (unfold isinstance_keys; now apply Permutation_flat_map).
now rewrite (proj1 (Permutation_count_occ string_dec _ _) Hkeys var).
Qed.

(** X7: an or-node has no finding exactly when no two of its counted
    operands have the same rendered first argument. *)
Theorem duplicated_isinstance_none_X7
  (lineno col_offset : Z) (values : list node) :
  _get_duplicated_isinstance_calls lineno col_offset Or values = Ok []
  <-> NoDup (isinstance_keys values).
Proof.
rewrite duplicated_isinstance_calls_Or. split.
- intros [= H]. apply map_eq_nil in H.
  apply (NoDup_count_occ string_dec). intros var.
  exact (proj1 (duplicated_vars_nil values) H var).
- intros Hnd.
  replace (duplicated_vars values) with (@nil string); [reflexivity|].
  symmetry. apply duplicated_vars_nil. intros var.
  exact (proj1 (NoDup_count_occ string_dec _) Hnd var).
Qed.

(** X8: an or-node with [n] operands has at most [n / 2] findings; with
    fewer than two operands it has none. *)
Theorem duplicated_isinstance_bound_X8
  (lineno col_offset : Z) (op : boolop) (values : list node) :
  exists found,
    _get_duplicated_isinstance_calls lineno col_offset op values = Ok found
    /\ 2 * List.length found <= List.length values.
Proof.
destruct op.
- exists []. split; [reflexivity|cbn; lia].
- rewrite duplicated_isinstance_calls_Or. eexists. split; [reflexivity|].
  rewrite length_map.
  pose proof (isinstance_keys_length values) as Hkeys.
  assert (2 * List.length (duplicated_vars values)
          <= List.length (isinstance_keys values)); [|lia].
  apply twice_counted_bound; [apply duplicated_vars_NoDup|].
  intros var Hvar. apply duplicated_vars_In in Hvar. exact Hvar.
Qed.

(** X9: further operands, before or after, never remove a finding of an
    or-node. *)
Theorem duplicated_isinstance_monotone_X9
  (lineno col_offset : Z) (before values after : list node) :
  exists found more,
    _get_duplicated_isinstance_calls lineno col_offset Or values = Ok found
    /\ _get_duplicated_isinstance_calls lineno col_offset Or
         (before ++ values ++ after) = Ok more
    /\ incl found more.
Proof.
rewrite !duplicated_isinstance_calls_Or.
do 2 eexists. split; [reflexivity|]. split; [reflexivity|].
intros f Hf. apply in_map_iff in Hf as (var & <- & Hvar).
apply in_map_iff. exists var. split; [reflexivity|].
apply duplicated_vars_In. apply duplicated_vars_In in Hvar.
rewrite !occurrences_app. lia.
Qed.

Lemma children_outcome nodes outs :
  Forall2 (fun child out => visit child [] = Ok out) nodes outs ->
  existsb lacks_comparator (flat_map preorder nodes) = false
  /\ flat_map node_findings (flat_map preorder nodes) = List.concat outs.
Proof.
induction 1 as [|child out nodes outs Hchild _ [IHbad IHout]];
  cbn [flat_map List.concat]; [now split|].
rewrite visit_outcome in Hchild.
destruct (existsb lacks_comparator (preorder child)) eqn:E;
  [discriminate|].
injection Hchild as <-. cbn [app].
rewrite existsb_app, E, IHbad, flat_map_app, IHout. now split.
Qed.

(** X10: the findings of a subtree are those of its root followed by those
    of its children's subtrees, in field order: when the check at a node
    returns [found] and the visits of its children, each started from no
    errors, return [outs], the visit of the node returns the errors it
    started from, then [found], then the lists of [outs] one after the
    other. *)
Theorem visit_children_X10
  (n : node) (errors found : list Finding) (outs : list (list Finding)) :
  check_node n = Ok found ->
  Forall2 (fun child out => visit child [] = Ok out) (child_nodes n) outs ->
  visit n errors = Ok (errors ++ found ++ List.concat outs).
Proof.
intros Hcheck Hchildren.
rewrite check_node_outcome in Hcheck.
destruct (lacks_comparator n) eqn:E; [discriminate|].
injection Hcheck as <-.
destruct (children_outcome _ _ Hchildren) as [Hbad Hout].
rewrite visit_outcome, preorder_children. cbn [existsb flat_map].
now rewrite E, Hbad, Hout.
Qed.

(** *** The visit in terms of the children *)

Lemma bind_Ok_r {A} (m : result A) : (x <- m ;; Ok x) = m.
Proof. now destruct m. Qed.

Lemma visit_each_app nodes more : forall errors,
  visit_each visit (nodes ++ more) errors
  = (errors' <- visit_each visit nodes errors ;;
     visit_each visit more errors').
Proof.
induction nodes as [|n nodes IH]; intros errors; cbn [visit_each app bind].
- reflexivity.
- destruct (visit n errors); cbn [bind]; [apply IH|reflexivity].
Qed.

Lemma visit_by_children n errors :
  visit n errors
  = (found <- check_node n ;;
     visit_each visit (child_nodes n) (errors ++ found)).
Proof.
destruct n; cbn [visit check_node child_nodes bind visit_each];
  rewrite ?app_nil_r; try reflexivity.
- destruct (_get_not_equal_calls lineno col_offset op n);
    cbn [bind]; [|reflexivity].
  now rewrite bind_Ok_r.
- destruct (visit n errors); cbn [bind]; [|reflexivity].
  now rewrite visit_each_app.
- now rewrite bind_Ok_r.
Qed.

Lemma node_children_ind (P : node -> Prop) :
  (forall n, Forall P (child_nodes n) -> P n) -> forall n, P n.
Proof.
intros step. induction n using node_nested_ind; apply step;
  cbn [child_nodes]; repeat constructor; try assumption.
now apply Forall_app.
Qed.

Lemma preorder_subtree m child :
  In child (child_nodes m) -> incl (preorder child) (preorder m).
Proof.
intros Hchild x Hx. rewrite (preorder_children m). right.
apply in_flat_map. now exists child.
Qed.

Lemma well_formed_has_comparator n :
  well_formed n = true -> lacks_comparator n = false.
Proof.
destruct n as [|l c op operand| | | | |]; try reflexivity.
destruct op; try reflexivity.
destruct operand as [| |cl cc cmp_left ops cs| | | |]; try reflexivity.
destruct ops as [|op0 [|op1 ops]]; try reflexivity;
  destruct op0; try reflexivity.
destruct cs; [|reflexivity]. cbn. discriminate.
Qed.

Lemma well_formed_tree_has_comparators root :
  well_formed root = true ->
  existsb lacks_comparator (preorder root) = false.
Proof.
intros Hwf. destruct (existsb lacks_comparator (preorder root)) eqn:E;
  [|reflexivity].
apply existsb_exists in E as (m & Hm & Hlacks).
rewrite (well_formed_has_comparator m) in Hlacks; [discriminate|].
now apply (well_formed_preorder root).
Qed.

End Checks.

(** ** The checks when the renderer may raise *)

Section RaisingChecks.

Variable to_source : node -> result string.

(** *** The visit in terms of the checks *)

Lemma raising_visit_each_app nodes more : forall errors,
  Raising.visit_each (Raising.visit to_source) (nodes ++ more) errors
  = (errors' <- Raising.visit_each (Raising.visit to_source) nodes errors ;;
     Raising.visit_each (Raising.visit to_source) more errors').
Proof.
induction nodes as [|n nodes IH]; intros errors;
  cbn [Raising.visit_each app bind].
- reflexivity.
- destruct (Raising.visit to_source n errors); cbn [bind];
    [apply IH|reflexivity].
Qed.

Lemma raising_visit_by_children n errors :
  Raising.visit to_source n errors
  = (found <- Raising.check_node to_source n ;;
     Raising.visit_each (Raising.visit to_source) (child_nodes n)
       (errors ++ found)).
Proof.
destruct n;
  cbn [Raising.visit Raising.check_node child_nodes bind Raising.visit_each];
  rewrite ?app_nil_r; try reflexivity.
- destruct (Raising._get_not_equal_calls to_source lineno col_offset op n);
    cbn [bind]; [|reflexivity].
  now rewrite bind_Ok_r.
- destruct (Raising.visit to_source n errors); cbn [bind]; [|reflexivity].
  now rewrite raising_visit_each_app.
- now rewrite bind_Ok_r.
Qed.

Lemma collect_app outcomes more :
  collect (outcomes ++ more)
  = (found <- collect outcomes ;; rest <- collect more ;;
     Ok (found ++ rest)).
Proof.
induction outcomes as [|outcome outcomes IH]; cbn [collect app bind].
- now destruct (collect more).
- destruct outcome as [found|e]; cbn [bind]; [|reflexivity].
  rewrite IH. destruct (collect outcomes) as [found'|e]; cbn [bind];
    [|reflexivity].
  destruct (collect more); cbn [bind]; [|reflexivity].
  now rewrite app_assoc.
Qed.

Lemma collect_raises outcomes e :
  collect outcomes = Raise e -> In (Raise e) outcomes.
Proof.
induction outcomes as [|outcome outcomes IH]; cbn [collect]; [discriminate|].
destruct outcome as [found|e']; cbn [bind].
- destruct (collect outcomes); cbn [bind]; [discriminate|].
  intros [= ->]. right. now apply IH.
- intros [= ->]. now left.
Qed.

Lemma collect_returns outcomes found :
  collect outcomes = Ok found ->
  forall outcome, In outcome outcomes -> exists part, outcome = Ok part.
Proof.
revert found.
induction outcomes as [|first outcomes IH]; intros found; cbn [collect].
- intros _ outcome [].
- destruct first as [part|e]; cbn [bind]; [|discriminate].
  destruct (collect outcomes) as [more|e] eqn:E; cbn [bind]; [|discriminate].
  intros _ outcome [<-|Hin]; [now exists part|]. now apply (IH more).
Qed.

Lemma collect_all_return {A} (check : A -> result (list Finding))
  (findings : A -> list Finding) l :
  (forall m, In m l -> check m = Ok (findings m)) ->
  collect (map check l) = Ok (flat_map findings l).
Proof.
induction l as [|m l IH]; intros Hall; cbn [map collect flat_map];
  [reflexivity|].
rewrite (Hall m (or_introl eq_refl)). cbn [bind].
rewrite IH; [reflexivity|]. intros x Hx. apply Hall. now right.
Qed.

Lemma raising_visit_each_collect nodes :
  Forall (fun m => forall errors,
            Raising.visit to_source m errors
            = (found <- collect (map (Raising.check_node to_source)
                                     (preorder m)) ;;
               Ok (errors ++ found))) nodes ->
  forall errors,
    Raising.visit_each (Raising.visit to_source) nodes errors
    = (found <- collect (map (Raising.check_node to_source)
                             (flat_map preorder nodes)) ;;
       Ok (errors ++ found)).
Proof.
induction 1 as [|m rest Hm _ IH]; intros errors;
  cbn [Raising.visit_each flat_map map collect bind].
- now rewrite app_nil_r.
- rewrite Hm, map_app, collect_app.
  destruct (collect (map (Raising.check_node to_source) (preorder m)));
    cbn [bind]; [|reflexivity].
  rewrite IH.
  destruct (collect (map (Raising.check_node to_source)
                         (flat_map preorder rest)));
    cbn [bind]; [|reflexivity].
  now rewrite app_assoc.
Qed.

(** The visit runs the checks of the nodes in pre-order and stops at the
    first that raises. *)
Lemma raising_visit_collect n : forall errors,
  Raising.visit to_source n errors
  = (found <- collect (map (Raising.check_node to_source) (preorder n)) ;;
     Ok (errors ++ found)).
Proof.
induction n as [n IH] using node_children_ind. intros errors.
rewrite raising_visit_by_children, preorder_children.
cbn [map collect].
destruct (Raising.check_node to_source n) as [found|e]; cbn [bind];
  [|reflexivity].
rewrite (raising_visit_each_collect _ IH).
destruct (collect (map (Raising.check_node to_source)
                       (flat_map preorder (child_nodes n))));
  cbn [bind]; [|reflexivity].
now rewrite app_assoc.
Qed.

(** *** The checks where the renderer returns *)

Lemma raising_render_returns e :
  renders to_source e ->
  Raising.render to_source e = Ok (render (rendered to_source) e).
Proof.
intros [source Hsource]. unfold Raising.render, render, rendered.
now rewrite Hsource.
Qed.

Lemma raising_count_agree counter operand :
  (forall x, In x (child_nodes operand) -> renders to_source x) ->
  Raising.count_isinstance_call to_source counter operand
  = count_isinstance_call (rendered to_source) counter operand.
Proof.
intros Hrenders.
destruct operand as [| | |l c func args kws| | |]; try reflexivity.
destruct args as [|arg0 [|arg1 [|arg2 more]]]; try reflexivity.
cbn [Raising.count_isinstance_call count_isinstance_call List.length
     Nat.eqb negb].
rewrite (raising_render_returns func) by (apply Hrenders; now left).
cbn [bind].
destruct (String.eqb (render (rendered to_source) func) "isinstance");
  cbn [negb getitem nth_error bind]; [|reflexivity].
rewrite (raising_render_returns arg0)
  by (apply Hrenders; right; now left).
reflexivity.
Qed.

Lemma raising_counts_agree values :
  (forall operand x,
      In operand values -> In x (child_nodes operand) ->
      renders to_source x) ->
  forall counter,
    for_each (Raising.count_isinstance_call to_source) values counter
    = for_each (count_isinstance_call (rendered to_source)) values counter.
Proof.
induction values as [|operand values IH]; intros Hrenders counter;
  cbn [for_each]; [reflexivity|].
rewrite raising_count_agree
  by (intros x Hx; apply (Hrenders operand x); [now left|assumption]).
destruct (count_isinstance_call (rendered to_source) counter operand);
  cbn [bind]; [|reflexivity].
apply IH. intros operand' x Hin. apply Hrenders. now right.
Qed.

Lemma raising_calls_agree (lineno col_offset : Z) op values :
  (forall operand x,
      In operand values -> In x (child_nodes operand) ->
      renders to_source x) ->
  Raising._get_duplicated_isinstance_calls to_source lineno col_offset op
    values
  = _get_duplicated_isinstance_calls (rendered to_source) lineno col_offset
      op values.
Proof.
intros Hrenders.
unfold Raising._get_duplicated_isinstance_calls,
  _get_duplicated_isinstance_calls,
  Raising._get_duplicated_isinstance_call_by_node,
  _get_duplicated_isinstance_call_by_node.
destruct op; [reflexivity|]. now rewrite raising_counts_agree.
Qed.

Lemma raising_not_equal_agree (lineno col_offset : Z) op operand :
  (forall x, In x (child_nodes operand) -> renders to_source x) ->
  Raising._get_not_equal_calls to_source lineno col_offset op operand
  = _get_not_equal_calls (rendered to_source) lineno col_offset op operand.
Proof.
intros Hrenders. destruct op; try reflexivity.
destruct operand as [| |l c cmp_left ops cs| | | |]; try reflexivity.
destruct ops as [|op0 [|op1 ops]]; try reflexivity.
destruct op0; try reflexivity.
cbn [Raising._get_not_equal_calls _get_not_equal_calls List.length Nat.eqb
     negb getitem nth_error bind].
rewrite (raising_render_returns cmp_left) by (apply Hrenders; now left).
cbn [bind]. destruct cs as [|right more]; [reflexivity|].
cbn [getitem nth_error bind].
rewrite (raising_render_returns right)
  by (apply Hrenders; right; now left).
reflexivity.
Qed.

Lemma grandchild_in_preorder m child x :
  In child (child_nodes m) -> In x (child_nodes child) -> In x (preorder m).
Proof.
intros Hchild Hx. apply (preorder_subtree m child Hchild).
apply (preorder_subtree child x Hx). apply preorder_self.
Qed.

Lemma raising_check_agree m :
  (forall x, In x (preorder m) -> renders to_source x) ->
  Raising.check_node to_source m = check_node (rendered to_source) m.
Proof.
intros Hrenders.
destruct m as [l c op values|l c op operand| | | | |]; try reflexivity;
  cbn [Raising.check_node check_node].
- apply raising_calls_agree. intros operand x Hoperand Hx.
  apply Hrenders. now apply (grandchild_in_preorder _ operand).
- apply raising_not_equal_agree. intros x Hx.
  apply Hrenders. apply (grandchild_in_preorder _ operand); [now left|].
  exact Hx.
Qed.

(** *** Where the checks raise *)

Lemma for_each_raises {A S} (body : S -> A -> result S) l e :
  forall s, for_each body l s = Raise e ->
            exists x s', In x l /\ body s' x = Raise e.
Proof.
induction l as [|x l IH]; intros s; cbn [for_each]; [discriminate|].
destruct (body s x) as [s'|e'] eqn:E; cbn [bind].
- intros H. apply IH in H as (y & s'' & Hy & Hraise).
  exists y, s''. split; [now right|assumption].
- intros [= ->]. exists x, s. split; [now left|assumption].
Qed.

Lemma raising_render_raises e x :
  Raising.render to_source e = Raise x -> to_source e = Raise x.
Proof.
unfold Raising.render. destruct (to_source e); cbn [bind]; congruence.
Qed.

Lemma raising_count_raises counter operand e :
  Raising.count_isinstance_call to_source counter operand = Raise e ->
  exists x, In x (child_nodes operand) /\ to_source x = Raise e.
Proof.
destruct operand as [| | |l c func args kws| | |]; try discriminate.
destruct args as [|arg0 [|arg1 [|arg2 more]]]; try discriminate.
cbn [Raising.count_isinstance_call List.length Nat.eqb negb child_nodes].
destruct (Raising.render to_source func) as [name|e'] eqn:Efunc;
  cbn [bind].
- destruct (String.eqb name "isinstance");
    cbn [negb getitem nth_error bind]; [|discriminate].
  destruct (Raising.render to_source arg0) as [key|e'] eqn:Earg;
    cbn [bind]; [discriminate|].
  intros [= ->]. exists arg0. split; [right; now left|].
  now apply raising_render_raises.
- intros [= ->]. exists func. split; [now left|].
  now apply raising_render_raises.
Qed.

Lemma raising_calls_raises (lineno col_offset : Z) op values e :
  Raising._get_duplicated_isinstance_calls to_source lineno col_offset op
    values = Raise e ->
  exists operand x,
    In operand values /\ In x (child_nodes operand)
    /\ to_source x = Raise e.
Proof.
unfold Raising._get_duplicated_isinstance_calls,
  Raising._get_duplicated_isinstance_call_by_node.
destruct op; [discriminate|].
destruct (for_each (Raising.count_isinstance_call to_source) values [])
  as [counter|e'] eqn:E; cbn [bind].
- now rewrite SIM101_loop.
- intros [= ->]. apply for_each_raises in E as (operand & c & Hin & Hraise).
  apply raising_count_raises in Hraise as (x & Hx & Hsource).
  now exists operand, x.
Qed.

Lemma raising_not_equal_raises (lineno col_offset : Z) op operand e :
  Raising._get_not_equal_calls to_source lineno col_offset op operand
  = Raise e <->
  op = Not
  /\ exists l c cmp_left comparators,
       operand = Compare l c cmp_left [Eq] comparators
       /\ (to_source cmp_left = Raise e
           \/ (renders to_source cmp_left
               /\ comparators = [] /\ e = IndexError)
           \/ (renders to_source cmp_left
               /\ exists right more,
                    comparators = right :: more
                    /\ to_source right = Raise e)).
Proof.
split.
- destruct op; try discriminate.
  destruct operand as [| |l c cmp_left ops cs| | | |]; try discriminate.
  destruct ops as [|op0 [|op1 ops]]; try discriminate.
  destruct op0; try discriminate.
  cbn [Raising._get_not_equal_calls List.length Nat.eqb negb getitem
       nth_error bind].
  unfold Raising.render.
  intros H. split; [reflexivity|]. exists l, c, cmp_left, cs.
  split; [reflexivity|].
  destruct (to_source cmp_left) as [left|e'] eqn:Eleft; cbn [bind] in H.
  + right. destruct cs as [|right more]; cbn [getitem nth_error bind] in H.
    * left. injection H as <-. split; [now exists left|now split].
    * right. split; [now exists left|]. exists right, more.
      split; [reflexivity|].
      destruct (to_source right); cbn [bind] in H; [|congruence].
      rewrite format_SIM201 in H. discriminate.
  + left. congruence.
- intros (-> & l & c & cmp_left & cs & -> & Hcases).
  cbn [Raising._get_not_equal_calls List.length Nat.eqb negb getitem
       nth_error bind].
  unfold Raising.render.
  destruct Hcases as [Hleft|[([left Hleft] & -> & ->)
                            |([left Hleft] & right & more & -> & Hright)]];
    rewrite Hleft; cbn [bind getitem nth_error];
    [reflexivity|reflexivity|].
  now rewrite Hright.
Qed.

Lemma raising_check_raises m e :
  Raising.check_node to_source m = Raise e ->
  (e = IndexError /\ lacks_comparator m = true)
  \/ exists x, In x (preorder m) /\ to_source x = Raise e.
Proof.
destruct m as [l c op values|l c op operand| | | | |]; try discriminate;
  cbn [Raising.check_node].
- intros H. right.
  apply raising_calls_raises in H as (operand & x & Hoperand & Hx & Hraise).
  exists x. split; [|assumption].
  now apply (grandchild_in_preorder _ operand).
- intros H.
  apply raising_not_equal_raises in H
    as (-> & cl & cc & cmp_left & cs & -> & Hcases).
  assert (Hsub : forall x, In x (cmp_left :: cs) ->
                 In x (preorder (UnaryOp l c Not
                                   (Compare cl cc cmp_left [Eq] cs)))).
  { intros x Hx.
    apply (grandchild_in_preorder _ (Compare cl cc cmp_left [Eq] cs));
      [now left|exact Hx]. }
  destruct Hcases as [Hleft|[(_ & -> & ->)
                            |(_ & right & more & -> & Hright)]].
  + right. exists cmp_left. split; [apply Hsub; now left|assumption].
  + left. now split.
  + right. exists right. split; [apply Hsub; right; now left|assumption].
Qed.

Lemma raising_check_lacking m :
  lacks_comparator m = true ->
  exists e, Raising.check_node to_source m = Raise e.
Proof.
destruct m as [|l c op operand| | | | |]; try discriminate.
destruct op; try discriminate.
destruct operand as [| |cl cc cmp_left ops cs| | | |]; try discriminate.
destruct ops as [|op0 [|op1 ops]]; try discriminate;
  destruct op0; try discriminate.
destruct cs; [|discriminate]. intros _.
cbn [Raising.check_node Raising._get_not_equal_calls List.length Nat.eqb
     negb getitem nth_error bind].
unfold Raising.render.
destruct (to_source cmp_left); cbn [bind getitem nth_error];
  eexists; reflexivity.
Qed.

Lemma preorder_incl root : forall m,
  In m (preorder root) -> incl (preorder m) (preorder root).
Proof.
induction root as [root IH] using node_children_ind. intros m Hm.
rewrite (preorder_children root) in Hm. destruct Hm as [<-|Hm].
- apply incl_refl.
- apply in_flat_map in Hm as (child & Hchild & Hm).
  rewrite Forall_forall in IH. intros x Hx.
  apply (preorder_subtree root child Hchild).
  exact (IH child Hchild m Hm x Hx).
Qed.

Lemma raising_run_collect tree :
  Raising.run to_source tree
  = (found <- collect (map (Raising.check_node to_source)
                           (preorder tree)) ;;
     Ok (map (fun '(line, col, msg) => (line, col, msg, Plugin)) found)).
Proof.
unfold Raising.run. rewrite raising_visit_collect.
now destruct (collect (map (Raising.check_node to_source) (preorder tree))).
Qed.

Lemma raising_run_raises tree e :
  Raising.run to_source tree = Raise e ->
  exists m, In m (preorder tree)
            /\ Raising.check_node to_source m = Raise e.
Proof.
rewrite raising_run_collect.
destruct (collect (map (Raising.check_node to_source) (preorder tree)))
  as [found|e'] eqn:E; cbn [bind]; [discriminate|].
intros [= ->]. apply collect_raises in E.
apply in_map_iff in E as (m & Hcheck & Hm). now exists m.
Qed.

(** *** Properties *)


(** X2: the run with a renderer that may raise.  The run returns exactly
    when the check at every node of the tree returns, and then yields the
    findings of the nodes in pre-order, each with the plugin's type;
    otherwise it raises what the first check that raised, in pre-order,
    raised.  What it raises is [IndexError] from a [not] over a comparison
    with the one operator [==] and no comparator, or an exception the
    renderer raised on a node of the tree; a tree with such a [not] node
    always makes the run raise. *)
Theorem raising_run_outcome_X2 (tree : node) :
  Raising.run to_source tree
  = (found <- collect (map (Raising.check_node to_source)
                           (preorder tree)) ;;
     Ok (map (fun '(line, col, msg) => (line, col, msg, Plugin)) found))
  /\ (forall e,
         Raising.run to_source tree = Raise e ->
         (e = IndexError
          /\ existsb lacks_comparator (preorder tree) = true)
         \/ exists x, In x (preorder tree) /\ to_source x = Raise e)
  /\ (existsb lacks_comparator (preorder tree) = true ->
      exists e, Raising.run to_source tree = Raise e)
  /\ ((forall x, In x (preorder tree) -> renders to_source x) ->
      existsb lacks_comparator (preorder tree) = false ->
      Raising.run to_source tree
      = Ok (map (fun '(line, col, msg) => (line, col, msg, Plugin))
                (flat_map (node_findings (rendered to_source))
                          (preorder tree)))).
Proof.
split; [apply raising_run_collect|]. split; [|split].
- intros e Hrun. apply raising_run_raises in Hrun as (m & Hm & Hcheck).
  apply raising_check_raises in Hcheck as [[-> Hlacks]|(x & Hx & Hsource)].
  + left. split; [reflexivity|]. apply existsb_exists. now exists m.
  + right. exists x. split; [|assumption]. now apply (preorder_incl tree m).
- intros Hlacks. apply existsb_exists in Hlacks as (m & Hm & Hlacks).
  destruct (raising_check_lacking m Hlacks) as [e He].
  rewrite raising_run_collect.
  destruct (collect (map (Raising.check_node to_source) (preorder tree)))
    as [found|e'] eqn:E; cbn [bind]; [|now exists e'].
  destruct (collect_returns _ _ E (Raising.check_node to_source m))
    as [part Hpart]; [now apply in_map|]. congruence.
- intros Hrenders Hlacks. rewrite raising_run_collect.
  rewrite (collect_all_return _
             (node_findings (rendered to_source))); [reflexivity|].
  intros m Hm. rewrite raising_check_agree.
  + rewrite check_node_outcome.
    destruct (lacks_comparator m) eqn:E; [|reflexivity].
    assert (existsb lacks_comparator (preorder tree) = true)
      by (apply existsb_exists; now exists m).
    congruence.
  + intros x Hx. apply Hrenders. now apply (preorder_incl tree m).
Qed.

(** X3: the negated-equality predicate with a renderer that may raise.  It
    raises only at a [not] over a comparison with the one operator [==]:
    what the renderer raises on the left operand; else [IndexError] when
    there is no comparator; else what the renderer raises on the first
    comparator.  Whenever it returns, it returns at most one finding. *)
Theorem raising_not_equal_calls_outcome_X3
  (lineno col_offset : Z) (op : unaryop) (operand : node) :
  (forall e,
      Raising._get_not_equal_calls to_source lineno col_offset op operand
      = Raise e <->
      op = Not
      /\ exists l c cmp_left comparators,
           operand = Compare l c cmp_left [Eq] comparators
           /\ (to_source cmp_left = Raise e
               \/ (renders to_source cmp_left
                   /\ comparators = [] /\ e = IndexError)
               \/ (renders to_source cmp_left
                   /\ exists right more,
                        comparators = right :: more
                        /\ to_source right = Raise e)))
  /\ forall found,
       Raising._get_not_equal_calls to_source lineno col_offset op operand
       = Ok found ->
       List.length found <= 1.
Proof.
split; [intros e; apply raising_not_equal_raises|].
intros found.
destruct op; try (intros [= <-]; cbn; lia).
destruct operand as [| |l c cmp_left ops cs| | | |];
  try (intros [= <-]; cbn; lia).
destruct ops as [|op0 [|op1 ops]]; try (intros [= <-]; cbn; lia).
destruct op0; try (intros [= <-]; cbn; lia).
cbn [Raising._get_not_equal_calls List.length Nat.eqb negb getitem
     nth_error bind].
unfold Raising.render.
destruct (to_source cmp_left); cbn [bind]; [|discriminate].
destruct cs as [|right more]; cbn [getitem nth_error bind]; [discriminate|].
destruct (to_source right); cbn [bind]; [|discriminate].
rewrite format_SIM201. cbn [bind]. intros [= <-]. cbn. lia.
Qed.

End RaisingChecks.

(** ** The properties on the sample trees, rendered by [names_to_source] *)

(** [not a == b] at line 1, column 0. *)
Lemma negated_equality_finding_C2_witness :
  well_formed a_eq_b = true
  /\ _get_not_equal_calls names_to_source 1 0 Not a_eq_b
     = Ok [(1%Z, 0%Z, "SIM201 Used 'not a == b' instead of 'a != b'")].
Proof.
split; [reflexivity|].
destruct (negated_equality_finding_C2 names_to_source 1 0 Not a_eq_b
            eq_refl) as (found & Hres & _ & Hmsg).
destruct (Hmsg 1%Z 4%Z (Name 1 4 "a") [Name 1 9 "b"] eq_refl eq_refl)
  as (right & Hright & Hfound).
injection Hright as <-. rewrite Hres, Hfound. reflexivity.
Defined.

(** The nested or-chain: the inner node's finding for [a] follows the
    outer node's findings. *)
Lemma traversal_preorder_C3_witness :
  well_formed nested_or = true
  /\ 1 < occurrences names_to_source "a"
           [isinstance_call 1 "a" "int"; isinstance_call 23 "a" "float"]
  /\ exists outer rest,
       _get_duplicated_isinstance_calls names_to_source 1 0 Or
         [BoolOp 1 1 Or
            [isinstance_call 1 "a" "int"; isinstance_call 23 "a" "float"];
          isinstance_call 50 "b" "int"]
       = Ok outer
       /\ visit names_to_source nested_or [] = Ok ([] ++ outer ++ rest)
       /\ In (1%Z, 1%Z, SIM101_message "a") rest.
Proof.
split; [reflexivity|]. split; [cbv; lia|].
destruct (traversal_preorder_C3 names_to_source nested_or eq_refl)
  as (_ & _ & _ & Hnested).
refine (proj2 (Hnested 1%Z 0%Z
          [BoolOp 1 1 Or
             [isinstance_call 1 "a" "int"; isinstance_call 23 "a" "float"];
           isinstance_call 50 "b" "int"]
          1%Z 1%Z
          [isinstance_call 1 "a" "int"; isinstance_call 23 "a" "float"]
          "a" [] eq_refl _ _)).
- left. reflexivity.
- cbv. lia.
Defined.

Lemma finding_positions_C4_witness :
  well_formed sample_module = true
  /\ exists found,
       visit names_to_source sample_module [] = Ok found
       /\ run names_to_source sample_module
          = Ok (map (fun '(line, col, msg) => (line, col, msg, Plugin)) found)
       /\ forall f, In f found ->
            (exists lineno col_offset values var,
                In (BoolOp lineno col_offset Or values)
                   (preorder sample_module)
                /\ 1 < occurrences names_to_source var values
                /\ f = (lineno, col_offset, SIM101_message var))
            \/ (exists lineno col_offset l c cmp_left right,
                  In (UnaryOp lineno col_offset Not
                        (Compare l c cmp_left [Eq] [right]))
                     (preorder sample_module)
                  /\ f = (lineno, col_offset,
                          SIM201_message (render names_to_source cmp_left)
                                         (render names_to_source right))).
Proof.
split; [reflexivity|].
exact (finding_positions_C4 names_to_source sample_module eq_refl).
Defined.

(** [isinstance(a, int) and isinstance(a, float)] *)
Lemma duplicated_isinstance_not_or_C5_witness :
  And <> Or
  /\ _get_duplicated_isinstance_calls names_to_source 1 0 And
       [isinstance_call 0 "a" "int"; isinstance_call 23 "a" "float"]
     = Ok [].
Proof.
split; [discriminate|].
apply (duplicated_isinstance_not_or_C5 names_to_source). discriminate.
Defined.

(** [not a != b], [not a == b == c] and [not a] *)
Lemma negated_equality_non_match_C6_witness :
  _get_not_equal_calls names_to_source 1 0 Not
    (Compare 1 4 (Name 1 4 "a") [NotEq] [Name 1 9 "b"]) = Ok []
  /\ _get_not_equal_calls names_to_source 1 0 Not
       (Compare 1 4 (Name 1 4 "a") [Eq; Eq] [Name 1 9 "b"; Name 1 14 "c"])
     = Ok []
  /\ _get_not_equal_calls names_to_source 1 0 Not (Name 1 4 "a") = Ok [].
Proof.
split; [|split]; apply (negated_equality_non_match_C6 names_to_source).
- left. exists 1%Z, 4%Z, (Name 1 4 "a"), [NotEq], [Name 1 9 "b"].
  split; [reflexivity|]. right. exists NotEq. split; [reflexivity|discriminate].
- left. exists 1%Z, 4%Z, (Name 1 4 "a"), [Eq; Eq],
         [Name 1 9 "b"; Name 1 14 "c"].
  split; [reflexivity|]. left. cbn. lia.
- right. discriminate.
Defined.

(** [isinstance(a) or isinstance(a, int) or isinstance(a, float, str)]:
    the calls with one and with three arguments are not counted. *)
Lemma isinstance_other_arity_C7_witness :
  render names_to_source (Name 1 0 "isinstance") = "isinstance"
  /\ List.length [Name 1 11 "a"] <> 2
  /\ (forall counter,
         count_isinstance_call names_to_source counter
           (Call 1 0 (Name 1 0 "isinstance") [Name 1 11 "a"] [])
         = Ok counter)
  /\ _get_duplicated_isinstance_call_by_node names_to_source
       ([] ++ Call 1 0 (Name 1 0 "isinstance") [Name 1 11 "a"] []
           :: [isinstance_call 17 "a" "int"])
     = _get_duplicated_isinstance_call_by_node names_to_source
         ([] ++ [isinstance_call 17 "a" "int"])
  /\ _get_duplicated_isinstance_calls names_to_source 1 0 Or
       ([] ++ Call 1 0 (Name 1 0 "isinstance") [Name 1 11 "a"] []
           :: [isinstance_call 17 "a" "int"])
     = _get_duplicated_isinstance_calls names_to_source 1 0 Or
         ([] ++ [isinstance_call 17 "a" "int"]).
Proof.
split; [reflexivity|]. split; [discriminate|].
apply (isinstance_other_arity_C7 names_to_source);
  [reflexivity|discriminate].
Defined.

(** [isinstance(a, int) or isinstance(a, float) or isinstance(a, str)] *)
Lemma three_way_duplicate_C8_witness :
  render names_to_source (Name 1 0 "isinstance") = "isinstance"
  /\ render names_to_source (Name 1 11 "a") = "a"
  /\ _get_duplicated_isinstance_calls names_to_source 1 0 Or
       [Call 1 0 (Name 1 0 "isinstance")
             [Name 1 11 "a"; Name 1 14 "int"] [];
        Call 1 22 (Name 1 0 "isinstance")
             [Name 1 11 "a"; Name 1 36 "float"] [];
        Call 1 46 (Name 1 0 "isinstance")
             [Name 1 11 "a"; Name 1 60 "str"] []]
     = Ok [(1%Z, 0%Z, SIM101_message "a")].
Proof.
split; [reflexivity|]. split; [reflexivity|].
apply (three_way_duplicate_C8 names_to_source); reflexivity.
Defined.

(** ** The checks run on examples *)

(** The two examples of the docstring of
    [_get_duplicated_isinstance_call_by_node]. *)
Example docstring_duplicated_a :
  _get_duplicated_isinstance_call_by_node names_to_source
    [isinstance_call 0 "a" "int"; isinstance_call 22 "a" "float";
     isinstance_call 46 "b" "int"]
  = Ok ["a"].
Proof. reflexivity. Qed.

Example docstring_duplicated_b :
  _get_duplicated_isinstance_call_by_node names_to_source
    [isinstance_call 0 "a" "int"; isinstance_call 22 "b" "float";
     isinstance_call 46 "b" "int"]
  = Ok ["b"].
Proof. reflexivity. Qed.

(** Two duplicated variables are reported in the order they first occur. *)
Example two_duplicated_variables :
  _get_duplicated_isinstance_calls names_to_source 7 4 Or
    [isinstance_call 4 "b" "int"; isinstance_call 26 "a" "int";
     isinstance_call 48 "a" "float"; isinstance_call 72 "b" "str"]
  = Ok [(7%Z, 4%Z, SIM101_message "b"); (7%Z, 4%Z, SIM101_message "a")].
Proof. reflexivity. Qed.

(** Keyword arguments are not part of [args]: calls with two positional
    arguments and a keyword argument are counted. *)
Example keywords_not_inspected :
  _get_duplicated_isinstance_call_by_node names_to_source
    [Call 1 0 (Name 1 0 "isinstance") [Name 1 11 "a"; Name 1 14 "int"]
          [Generic "keyword" [Name 1 21 "y"]];
     Call 1 27 (Name 1 27 "isinstance") [Name 1 38 "a"; Name 1 41 "str"]
          [Generic "keyword" [Name 1 48 "y"]]]
  = Ok ["a"].
Proof. reflexivity. Qed.

(** A call through an attribute is not rendered as [isinstance]. *)
Example attribute_callee_not_counted :
  _get_duplicated_isinstance_call_by_node names_to_source
    [Call 1 0 (Attribute 1 0 (Name 1 0 "builtins") "isinstance")
          [Name 1 20 "a"; Name 1 23 "int"] [];
     Call 1 31 (Attribute 1 31 (Name 1 31 "builtins") "isinstance")
          [Name 1 51 "a"; Name 1 54 "str"] []]
  = Ok [].
Proof. reflexivity. Qed.

(** The whole run over the sample module, in traversal order. *)
Example run_sample_module :
  run names_to_source sample_module
  = Ok [(1%Z, 0%Z, "SIM201 Used 'not a == b' instead of 'a != b'", Plugin);
        (1%Z, 1%Z, SIM101_message "a", Plugin)].
Proof. reflexivity. Qed.

(** A comparison with an operator and no comparator, which no parser
    builds: reading [comparators[0]] raises. *)
Example comparison_without_comparator :
  _get_not_equal_calls names_to_source 1 0 Not
    (Compare 1 4 (Name 1 4 "a") [Eq] [])
  = Raise IndexError.
Proof. reflexivity. Qed.

Example strip_trims_both_ends :
  strip (String (ascii_of_nat 9) " a b " ++ String (ascii_of_nat 10) "")
  = "a b".
Proof. reflexivity. Qed.

Example format_unknown_field : format "{x}" [("var", "a")] = Raise KeyError.
Proof. reflexivity. Qed.

Example format_escaped_braces :
  format "{{{var}}}" [("var", "a")] = Ok "{a}".
Proof. reflexivity. Qed.

(** ** The further properties on sample trees *)

(** [isinstance(a, int) or isinstance(b, int)]: nothing to report. *)
Lemma run_silent_X4_witness :
  well_formed distinct_or_module = true
  /\ run names_to_source distinct_or_module = Ok []
  /\ forall l c values var,
       In (BoolOp l c Or values) (preorder distinct_or_module) ->
       occurrences names_to_source var values <= 1.
Proof.
split; [reflexivity|]. split; [reflexivity|].
exact (proj1 (proj1 (run_silent_X4 names_to_source distinct_or_module
                       eq_refl) eq_refl)).
Defined.

Lemma run_message_codes_X5_witness :
  run names_to_source sample_module
  = Ok [(1%Z, 0%Z, "SIM201 Used 'not a == b' instead of 'a != b'", Plugin);
        (1%Z, 1%Z, SIM101_message "a", Plugin)]
  /\ (prefix "SIM101 " (SIM101_message "a") = true
      \/ prefix "SIM201 " (SIM101_message "a") = true).
Proof.
split; [reflexivity|].
apply (run_message_codes_X5 names_to_source sample_module _ eq_refl
         1%Z 1%Z (SIM101_message "a") Plugin).
right. left. reflexivity.
Defined.

(** [isinstance(a, int) or isinstance(a, float)] and its operands swapped. *)
Lemma duplicated_isinstance_permutation_X6_witness :
  Permutation
    [isinstance_call 0 "a" "int"; isinstance_call 22 "a" "float"]
    [isinstance_call 22 "a" "float"; isinstance_call 0 "a" "int"]
  /\ exists found found',
       _get_duplicated_isinstance_calls names_to_source 1 0 Or
         [isinstance_call 0 "a" "int"; isinstance_call 22 "a" "float"]
       = Ok found
       /\ _get_duplicated_isinstance_calls names_to_source 1 0 Or
            [isinstance_call 22 "a" "float"; isinstance_call 0 "a" "int"]
          = Ok found'
       /\ Permutation found found'.
Proof.
split; [apply perm_swap|].
apply (duplicated_isinstance_permutation_X6 names_to_source).
apply perm_swap.
Defined.

(** The nested or-chain: nothing at the outer node, the finding for [a] from
    the inner node, nothing from the call. *)
Lemma visit_children_X10_witness :
  check_node names_to_source nested_or = Ok []
  /\ Forall2 (fun child out => visit names_to_source child [] = Ok out)
       (child_nodes nested_or)
       [[(1%Z, 1%Z, SIM101_message "a")]; []]
  /\ visit names_to_source nested_or []
     = Ok ([] ++ [] ++ List.concat [[(1%Z, 1%Z, SIM101_message "a")]; []]).
Proof.
assert (Hchildren :
  Forall2 (fun child out => visit names_to_source child [] = Ok out)
    (child_nodes nested_or) [[(1%Z, 1%Z, SIM101_message "a")]; []])
  by (repeat constructor).
split; [reflexivity|]. split; [exact Hchildren|].
exact (visit_children_X10 names_to_source nested_or [] [] _ eq_refl
         Hchildren).
Defined.

(** ** The checks with the renderer [digit_limit_to_source] *)



(** The run over [not <huge literal> == a] raises what the renderer raised. *)
Example raising_run_huge_literal :
  Raising.run digit_limit_to_source
    (Generic "Module" [Generic "Expr" [not_huge_eq_a]])
  = Raise ValueError.
Proof. reflexivity. Qed.

(** Where the renderer returns, the run is the one of the total renderer. *)
Example raising_run_sample_module :
  Raising.run digit_limit_to_source sample_module
  = run names_to_source sample_module.
Proof. reflexivity. Qed.
